(** * Binance cross-pair chart: synthetic series engine and TTL cache

    A shallow embedding of the server side of the repository
    ([src/server/binance.js], [src/server/cache.js], [src/server/index.js])
    together with the properties the specification states about it.

    Conventions of the embedding:
    - a JavaScript number holding a price or a volume is an IEEE-754 binary64
      value, modelled by Rocq's primitive [float]; [/] on it is the JavaScript
      division (it yields [infinity] or [nan] on a zero divisor, it never
      throws);
    - a bar's [time] is [Math.floor(k[0] / 1000)] of an integral millisecond
      stamp, modelled by [Z];
    - [undefined] / [null] results are [None];
    - the cache is generic in the type of the values it holds and in the
      copying function it would apply with [useClones], so that a value
      handed out unchanged can be told from a copy;
    - [console.log] and [console.error] are not modelled. *)

From Stdlib Require Import ZArith PrimFloat Ascii String.
From stdpp Require Import gmap strings list fin_maps sorting.

Open Scope Z_scope.

(** ** Bars *)

(** The object literal built by [getKlines] and by [getSyntheticPair]. *)
Record Bar : Type := mkBar {
  time : Z;
  open : float;
  high : float;
  low : float;
  close : float;
  volume : float
}.

(** ** JavaScript [Map] keyed by timestamps *)

Module JSMap.

(** [new Map(entries)]: the entries are set one after the other, in array
    order, so for a repeated key the LAST entry is the one that stays. *)
Definition of_entries {V : Type} (entries : list (Z * V)) : gmap Z V :=
  foldl (fun m e => <[e.1 := e.2]> m) ∅ entries.

(** [m.get(k)]: the value, or [undefined]. *)
Definition get {V : Type} (m : gmap Z V) (k : Z) : option V := m !! k.

End JSMap.

(** ** The synthetic pair computation ([BinanceAPI.getSyntheticPair], the
       part after both fetches have resolved) *)

(** The object returned by the callback of [klinesA.map] when a bar of coin B
    with the same timestamp exists. *)
Definition ratioBar (klineA klineB : Bar) : Bar :=
  {| time := time klineA;
     open := (open klineA / open klineB)%float;
     high := (high klineA / high klineB)%float;
     low := (low klineA / low klineB)%float;
     close := (close klineA / close klineB)%float;
     volume := volume klineA |}.

(** The callback of [klinesA.map]: [null] when coin B has no bar at that
    timestamp.  [klineB] is an object, hence truthy whenever it is defined,
    so [!klineB] holds exactly for [undefined]. *)
Definition syntheticOrNull (klinesBMap : gmap Z Bar) (klineA : Bar) : option Bar :=
  match JSMap.get klinesBMap (time klineA) with
  | None => None
  | Some klineB => Some (ratioBar klineA klineB)
  end.

(** [.filter(k => k !== null)] *)
Fixpoint filterNotNull {A : Type} (l : list (option A)) : list A :=
  match l with
  | [] => []
  | None :: l' => filterNotNull l'
  | Some k :: l' => k :: filterNotNull l'
  end.

(** [new Map(klinesB.map(k => [k.time, k]))] *)
Definition klinesBMapOf (klinesB : list Bar) : gmap Z Bar :=
  JSMap.of_entries (map (fun k => (time k, k)) klinesB).

(** [syntheticKlines]: what [getSyntheticPair] computes from the two
    fetched arrays. *)
Definition syntheticKlines (klinesA klinesB : list Bar) : list Bar :=
  let klinesBMap := klinesBMapOf klinesB in
  filterNotNull (map (syntheticOrNull klinesBMap) klinesA).

(** ** The market-data provider ([BinanceAPI.getKlines]) *)

(** A settled promise.  Only the [message] of a thrown [Error] is ever
    observed (the handlers answer with [error.message]). *)
Inductive Result (A : Type) : Type :=
| Resolved (value : A)
| Rejected (message : string).
Arguments Resolved {A} value.
Arguments Rejected {A} message.

(** A JavaScript number that holds an integer or [NaN] ([None]): the value of
    [parseInt(limit)]. *)
Definition JSInt : Type := option Z.

(** [Math.min(limit, 1000)] *)
Definition Math_min_1000 (limit : JSInt) : JSInt :=
  match limit with
  | Some n => Some (Z.min n 1000)
  | None => None
  end.

(** One row [[openTime, open, high, low, close, volume, ...]] of the
    provider's answer, the five numeric strings already read by
    [parseFloat]. *)
Record Row : Type := mkRow {
  k0 : Z; k1 : float; k2 : float; k3 : float; k4 : float; k5 : float
}.

(** What [axios.get] settles to: a 2xx answer, an answer with a failure
    status ([error.response] is set: its [status], the optional [data.msg],
    and [error.message]), or no answer at all. *)
Inductive AxiosOutcome : Type :=
| AxiosData (data : list Row)
| AxiosStatus (status : Z) (msg : option string) (message : string)
| AxiosNoResponse (message : string).

(** What lies outside the repository: the provider behind [axios.get] (each
    request settles after a delay in milliseconds, and a given request is
    answered in one way while a handler runs), and the built-ins [parseInt]
    and [x => parseFloat(x.toFixed(2))]. *)
Record Env : Type := mkEnv {
  axios_get : string → string → JSInt → Z * AxiosOutcome;
  parseInt : string → JSInt;
  toFixed2 : float → float
}.

(** The callback of [response.data.map]; [Z.div] rounds down like
    [Math.floor]. *)
Definition rowToKline (k : Row) : Bar :=
  {| time := k0 k / 1000; open := k1 k; high := k2 k; low := k3 k;
     close := k4 k; volume := k5 k |}.

(** Truthiness of an optional string: [undefined] and [''] are falsy. *)
Definition truthy (s : option string) : bool :=
  match s with
  | None | Some EmptyString => false
  | Some _ => true
  end.

(** [BinanceAPI.getKlines]: the bars of the answer, or one of three errors;
    a status 429 is reported as such, otherwise the provider's own message
    when there is one. *)
Definition getKlines (env : Env) (symbol interval : string) (limit : JSInt)
  : Z * Result (list Bar) :=
  let '(delay, outcome) := axios_get env symbol interval (Math_min_1000 limit) in
  (delay,
   match outcome with
   | AxiosData data => Resolved (map rowToKline data)
   | AxiosStatus status msg message =>
       if decide (status = 429) then
         Rejected "Rate limit exceeded. Please try again later."
       else if truthy msg then
         Rejected ("Binance API error: " +:+ default "" msg)
       else Rejected ("Failed to fetch klines: " +:+ message)
   | AxiosNoResponse message => Rejected ("Failed to fetch klines: " +:+ message)
   end).

(** [await Promise.all([pA, pB])]: both requests are already under way; the
    result is there when the later of the two has resolved, or as soon as one
    of them rejects, with that rejection.  When both reject at the same
    instant the first one in the array is taken. *)
Definition Promise_all2 {A : Type} (pA pB : Z * Result A) : Z * Result (A * A) :=
  match pA, pB with
  | (dA, Resolved a), (dB, Resolved b) => (Z.max dA dB, Resolved (a, b))
  | (dA, Rejected e), (_, Resolved _) => (dA, Rejected e)
  | (_, Resolved _), (dB, Rejected e) => (dB, Rejected e)
  | (dA, Rejected eA), (dB, Rejected eB) =>
      if decide (dA ≤ dB) then (dA, Rejected eA) else (dB, Rejected eB)
  end.

(** [BinanceAPI.getSyntheticPair]; the [catch] block logs and rethrows the
    error it caught. *)
Definition getSyntheticPair (env : Env) (coinA coinB interval : string)
    (limit : JSInt) : Z * Result (list Bar) :=
  let '(delay, settled) :=
    Promise_all2 (getKlines env (coinA +:+ "USDT") interval limit)
                 (getKlines env (coinB +:+ "USDT") interval limit) in
  (delay,
   match settled with
   | Resolved (klinesA, klinesB) => Resolved (syntheticKlines klinesA klinesB)
   | Rejected error => Rejected error
   end).

(** ** The expiring key-value store ([node-cache]) *)

(** What a property read on an object literal can evaluate to when the
    result is used as a TTL: a number, or a member inherited from
    [Object.prototype] (a function, or the prototype itself for
    [__proto__]), named by its property. *)
Inductive JSValue : Type :=
| JNum (n : Z)
| JInherited (property : string).

Module NodeCache.

Record Options : Type := mkOptions {
  stdTTL : Z;
  checkperiod : Z;
  useClones : bool
}.

(** The expiry stamp [t] of an entry: [0] (kept for ever), a time in
    milliseconds, or [NaN]. *)
Inductive Livetime : Type :=
| Forever
| Until (ms : Z)
| LivetimeNaN.

Record Wrapped (V : Type) : Type := mkWrapped { t : Livetime; v : V }.
Arguments mkWrapped {V} t v.
Arguments t {V} w.
Arguments v {V} w.

Record Stats : Type := mkStats { hits : nat; misses : nat; keys : nat }.

Record Cache (V : Type) : Type := mkCache {
  options : Options;
  data : gmap string (Wrapped V);
  stats : Stats
}.
Arguments mkCache {V} options data stats.
Arguments options {V} c.
Arguments data {V} c.
Arguments stats {V} c.

(** Modelled from the spec: [node-cache] is a package the repository
    depends on, its code is not part of the sources.  The operations below
    follow the contract of section 4.2 ([get(key) -> Value | absent],
    [set(key, value) -> success], [delete(key) -> count removed], passive
    expiry on read, no defensive copy unless [useClones]) and the package's
    documented behaviour.  [new NodeCache(options)] is the empty store. *)
Definition new {V : Type} (opts : Options) : Cache V :=
  mkCache opts ∅ (mkStats 0 0 0).

Section Operations.
Context {V : Type}.
(** The deep copy taken when [useClones] is on. *)
Variable clone : V → V.

(** Modelled from the spec: the expiry stamp is [now + ttl * 1000]; a TTL of
    [0] means no expiry, and with a TTL that is not a number the product is
    [NaN]. *)
Definition livetime (ttl : JSValue) (now : Z) : Livetime :=
  match ttl with
  | JNum 0 => Forever
  | JNum n => Until (now + n * 1000)
  | JInherited _ => LivetimeNaN
  end.

(** Modelled from the spec: an entry holds the value itself, or a copy of it
    when [useClones] is on. *)
Definition wrap (c : Cache V) (value : V) (ttl : JSValue) (now : Z) : Wrapped V :=
  mkWrapped (livetime ttl now) (if useClones (options c) then clone value else value).

(** Modelled from the spec: a read hands out the stored value itself, or a
    copy of it when [useClones] is on. *)
Definition unwrap (c : Cache V) (w : Wrapped V) : V :=
  if useClones (options c) then clone (v w) else v w.

(** Modelled from the spec: an entry is expired when
    [data.t !== 0 && data.t < Date.now()]; a comparison with [NaN] is
    false. *)
Definition expired (w : Wrapped V) (now : Z) : bool :=
  match t w with
  | Until ms => bool_decide (ms < now)
  | Forever | LivetimeNaN => false
  end.

(** Modelled from the spec: [del(key)] returns the number of entries
    removed, [0] for an absent key. *)
Definition del (c : Cache V) (key : string) : nat * Cache V :=
  match data c !! key with
  | Some _ =>
      (1%nat, mkCache (options c) (delete key (data c))
                (mkStats (hits (stats c)) (misses (stats c)) (pred (keys (stats c)))))
  | None => (0%nat, c)
  end.

(** Modelled from the spec: [get(key)] returns the value or [undefined]; an
    expired entry is removed and reported as a miss. *)
Definition get (c : Cache V) (key : string) (now : Z) : option V * Cache V :=
  match data c !! key with
  | Some w =>
      if expired w now then
        let c' := (del c key).2 in
        (None, mkCache (options c') (data c')
                 (mkStats (hits (stats c')) (S (misses (stats c'))) (keys (stats c'))))
      else
        (Some (unwrap c w),
         mkCache (options c) (data c)
           (mkStats (S (hits (stats c))) (misses (stats c)) (keys (stats c))))
  | None =>
      (None, mkCache (options c) (data c)
               (mkStats (hits (stats c)) (S (misses (stats c))) (keys (stats c))))
  end.

(** Modelled from the spec: [set(key, value, ttl)] puts the entry in place
    of any earlier one and returns [true] (no [maxKeys] is configured). *)
Definition set (c : Cache V) (key : string) (value : V) (ttl : JSValue) (now : Z)
  : bool * Cache V :=
  let existent := bool_decide (is_Some (data c !! key)) in
  (true,
   mkCache (options c) (<[key := wrap c value ttl now]> (data c))
     (mkStats (hits (stats c)) (misses (stats c))
        (if existent then keys (stats c) else S (keys (stats c))))).

End Operations.

(** Modelled from the spec: [flushAll()] drops every entry and resets the
    counters. *)
Definition flushAll {V : Type} (c : Cache V) : Cache V :=
  mkCache (options c) ∅ (mkStats 0 0 0).

(** Modelled from the spec: [getStats()] reports the counters. *)
Definition getStats {V : Type} (c : Cache V) : Stats := stats c.

End NodeCache.

(** ** [CacheManager] ([src/server/cache.js]) *)

Module CacheManager.

(** The object literal [ttlMap]: its own properties. *)
Definition ttlMap : list (string * Z) :=
  [("1m", 60); ("3m", 180); ("5m", 300); ("15m", 600); ("30m", 900);
   ("1h", 1800); ("2h", 3600); ("4h", 7200); ("6h", 10800); ("8h", 14400);
   ("12h", 21600); ("1d", 43200); ("3d", 86400); ("1w", 172800);
   ("1M", 259200)].

(** The properties every object literal inherits from [Object.prototype]. *)
Definition Object_prototype : list string :=
  ["constructor"; "__defineGetter__"; "__defineSetter__"; "hasOwnProperty";
   "__lookupGetter__"; "__lookupSetter__"; "isPrototypeOf";
   "propertyIsEnumerable"; "toString"; "valueOf"; "__proto__";
   "toLocaleString"].

Fixpoint ownProperty (props : list (string * Z)) (name : string) : option Z :=
  match props with
  | [] => None
  | (k, n) :: props' => if String.eqb k name then Some n else ownProperty props' name
  end.

(** [ttlMap[interval]]: an own property, else an inherited one, else
    [undefined]. *)
Definition ttlMap_at (interval : string) : option JSValue :=
  match ownProperty ttlMap interval with
  | Some n => Some (JNum n)
  | None =>
      if bool_decide (interval ∈ Object_prototype) then Some (JInherited interval)
      else None
  end.

(** [ttlMap[interval] || 300]: the numbers of the table are not zero and
    functions and objects are truthy, so only [undefined] gives the
    default. *)
Definition getTTL (interval : string) : JSValue :=
  match ttlMap_at interval with
  | Some (JNum 0) | None => JNum 300
  | Some value => value
  end.

(** The template literal [`${coinA}_${coinB}_${interval}`]. *)
Definition generateKey (coinA coinB interval : string) : string :=
  coinA +:+ "_" +:+ coinB +:+ "_" +:+ interval.

(** [new NodeCache({ stdTTL: 300, checkperiod: 60, useClones: false })] *)
Definition constructor {V : Type} : NodeCache.Cache V :=
  NodeCache.new (NodeCache.mkOptions 300 60 false).

Section Methods.
Context {V : Type}.
Variable clone : V → V.

(** [get], [set] and [delete]; [now] is what [Date.now()] reads when the
    store is called. *)
Definition get (cache : NodeCache.Cache V) (coinA coinB interval : string) (now : Z)
  : option V * NodeCache.Cache V :=
  let key := generateKey coinA coinB interval in
  NodeCache.get clone cache key now.

Definition set (cache : NodeCache.Cache V) (coinA coinB interval : string)
    (data : V) (now : Z) : bool * NodeCache.Cache V :=
  let key := generateKey coinA coinB interval in
  let ttl := getTTL interval in
  NodeCache.set clone cache key data ttl now.

Definition delete (cache : NodeCache.Cache V) (coinA coinB interval : string)
  : nat * NodeCache.Cache V :=
  let key := generateKey coinA coinB interval in
  NodeCache.del cache key.

End Methods.

(** [flush()] and [getStats()]. *)
Definition flush {V : Type} (cache : NodeCache.Cache V) : NodeCache.Cache V :=
  NodeCache.flushAll cache.

Definition getStats {V : Type} (cache : NodeCache.Cache V) : NodeCache.Stats :=
  NodeCache.getStats cache.

(** One call on the cache singleton, and what a sequence of calls leaves
    behind. *)
Inductive Call (V : Type) : Type :=
| CallGet (coinA coinB interval : string) (now : Z)
| CallSet (coinA coinB interval : string) (data : V) (now : Z)
| CallDelete (coinA coinB interval : string)
| CallFlush.
Arguments CallGet {V} coinA coinB interval now.
Arguments CallSet {V} coinA coinB interval data now.
Arguments CallDelete {V} coinA coinB interval.
Arguments CallFlush {V}.

Definition call {V : Type} (clone : V → V) (cache : NodeCache.Cache V)
    (c : Call V) : NodeCache.Cache V :=
  match c with
  | CallGet coinA coinB interval now => (get clone cache coinA coinB interval now).2
  | CallSet coinA coinB interval data now =>
      (set clone cache coinA coinB interval data now).2
  | CallDelete coinA coinB interval => (delete cache coinA coinB interval).2
  | CallFlush => flush cache
  end.

Definition calls {V : Type} (clone : V → V) (cs : list (Call V))
  : NodeCache.Cache V :=
  foldl (call clone) constructor cs.

End CacheManager.

(** ** The request handlers ([src/server/index.js]) *)

(** [s.toUpperCase()], on strings of ASCII characters. *)
Definition upper_ascii (c : ascii) : ascii :=
  let n := nat_of_ascii c in
  if ((97 <=? n)%nat && (n <=? 122)%nat)%bool then ascii_of_nat (n - 32) else c.

Fixpoint toUpperCase (s : string) : string :=
  match s with
  | EmptyString => EmptyString
  | String c s' => String (upper_ascii c) (toUpperCase s')
  end.

(** What a handler does to the outside, in the order it does it. *)
Inductive Event : Type :=
| EvCacheGet (key : string)
| EvCacheDelete (key : string)
| EvCacheSet (key : string) (ttl : JSValue)
| EvFetch (symbol interval : string) (limit : JSInt).

(** The process-wide state a handler runs in: the cache singleton, the
    clock read by [Date.now()], and the trace of what happened so far. *)
Record World : Type := mkWorld {
  cache : NodeCache.Cache (list Bar);
  clock : Z;
  events : list Event
}.

(** The copy [node-cache] would take of an array of bars has the same
    contents. *)
Definition cloneKlines (klines : list Bar) : list Bar := klines.

(** A computation inside a handler's [try] block: it changes the world and
    either yields a value or throws. *)
Definition Handler (A : Type) : Type := World → Result A * World.

Definition ret {A : Type} (a : A) : Handler A := fun w => (Resolved a, w).

Definition throw {A : Type} (message : string) : Handler A :=
  fun w => (Rejected message, w).

Definition bind {A B : Type} (m : Handler A) (k : A → Handler B) : Handler B :=
  fun w =>
    match m w with
    | (Resolved a, w') => k a w'
    | (Rejected message, w') => (Rejected message, w')
    end.

Declare Scope handler_scope.
Delimit Scope handler_scope with handler.
Notation "'let*' x ':=' m 'in' k" := (bind m (fun x => k))
  (at level 10, x name, m at level 100, k at level 200) : handler_scope.

Definition log (w : World) (e : list Event) : World :=
  mkWorld (cache w) (clock w) (events w ++ e).

Definition cache_get (coinA coinB interval : string) : Handler (option (list Bar)) :=
  fun w =>
    let '(data, c) := CacheManager.get cloneKlines (cache w) coinA coinB interval (clock w) in
    (Resolved data,
     log (mkWorld c (clock w) (events w))
       [EvCacheGet (CacheManager.generateKey coinA coinB interval)]).

Definition cache_set (coinA coinB interval : string) (data : list Bar) : Handler bool :=
  fun w =>
    let '(success, c) := CacheManager.set cloneKlines (cache w) coinA coinB interval data (clock w) in
    (Resolved success,
     log (mkWorld c (clock w) (events w))
       [EvCacheSet (CacheManager.generateKey coinA coinB interval)
          (CacheManager.getTTL interval)]).

Definition cache_delete (coinA coinB interval : string) : Handler nat :=
  fun w =>
    let '(deleted, c) := CacheManager.delete (cache w) coinA coinB interval in
    (Resolved deleted,
     log (mkWorld c (clock w) (events w))
       [EvCacheDelete (CacheManager.generateKey coinA coinB interval)]).

(** [await binanceAPI.getSyntheticPair(...)]: both requests are issued, coin
    A's first, and the handler resumes when the promise has settled. *)
Definition await_getSyntheticPair (env : Env) (coinA coinB interval : string)
    (limit : JSInt) : Handler (list Bar) :=
  fun w =>
    let '(delay, settled) := getSyntheticPair env coinA coinB interval limit in
    (settled,
     log (mkWorld (cache w) (clock w + delay) (events w))
       [EvFetch (coinA +:+ "USDT") interval (Math_min_1000 limit);
        EvFetch (coinB +:+ "USDT") interval (Math_min_1000 limit)]).

(** [Math.max(a, b)] and [Math.min(a, b)] on numbers: [NaN] if either is,
    and [+0] counts as larger than [-0]. *)
Definition Math_max (a b : float) : float :=
  if (is_nan a || is_nan b)%bool then nan
  else if (a <? b)%float then b
  else if (b <? a)%float then a
  else if get_sign a then b else a.

Definition Math_min (a b : float) : float :=
  if (is_nan a || is_nan b)%bool then nan
  else if (a <? b)%float then a
  else if (b <? a)%float then b
  else if get_sign a then a else b.

(** [array[i]]: [undefined] outside of the array, also for [i = -1]. *)
Definition at_index {A : Type} (array : list A) (i : Z) : option A :=
  if decide (i < 0) then None else array !! Z.to_nat i.

Record Statistics : Type := mkStatistics {
  currentPrice : float;
  openPrice : float;
  highPrice : float;
  lowPrice : float;
  priceChange : float;
  priceChangePercent : float;
  timestamp : Z
}.

Inductive Response : Type :=
| Status400 (error : string)
| Status500 (error : string)
| KlinesJson (pair interval : string) (count : nat) (data : list Bar)
    (stats : Statistics)
| RefreshJson (message pair : string) (count : nat).

(** Reading a property of [undefined] throws a [TypeError]. *)
Definition TypeError_undefined (property : string) : string :=
  "Cannot read properties of undefined (reading '" +:+ property +:+ "')".

(** The "Calculate statistics" block of [/api/klines].  The subtraction
    evaluates [latestCandle.close] first. *)
Definition statistics (env : Env) (klines : list Bar) : Handler Statistics :=
  let latestCandle := at_index klines (Z.of_nat (length klines) - 1) in
  let firstCandle := at_index klines 0 in
  match latestCandle, firstCandle with
  | None, _ => throw (TypeError_undefined "close")
  | Some _, None => throw (TypeError_undefined "close")
  | Some latestCandle, Some firstCandle =>
      let priceChange := (close latestCandle - close firstCandle)%float in
      let priceChangePercent :=
        toFixed2 env (priceChange / close firstCandle * 100)%float in
      ret {| currentPrice := close latestCandle;
             openPrice := open firstCandle;
             highPrice := foldl Math_max neg_infinity (map high klines);
             lowPrice := foldl Math_min infinity (map low klines);
             priceChange := priceChange;
             priceChangePercent := priceChangePercent;
             timestamp := time latestCandle |}
  end.

(** [try { body } catch (error) { res.status(500).json(...) }] *)
Definition try_catch (body : Handler Response) (w : World) : Response * World :=
  match body w with
  | (Resolved response, w') => (response, w')
  | (Rejected message, w') => (Status500 message, w')
  end.

Module KlinesQuery.
(** [req.query] of [GET /api/klines]; an absent parameter is [None]. *)
Record t : Type := mk {
  coinA : option string;
  coinB : option string;
  interval : option string;
  limit : option string
}.
End KlinesQuery.

Module RefreshBody.
(** [req.body] of [POST /api/refresh], its members being strings. *)
Record t : Type := mk {
  coinA : option string;
  coinB : option string;
  interval : option string
}.
End RefreshBody.

Open Scope handler_scope.

(** [app.get('/api/klines', ...)] *)
Definition api_klines (env : Env) (query : KlinesQuery.t) : World → Response * World :=
  try_catch (
    let interval := default "1h" (KlinesQuery.interval query) in
    let limit :=
      match KlinesQuery.limit query with
      | None => Some 500
      | Some limit => parseInt env limit
      end in
    if negb (truthy (KlinesQuery.coinA query)) || negb (truthy (KlinesQuery.coinB query)) then
      ret (Status400 "Missing required parameters: coinA and coinB")
    else
      let coinA := default "" (KlinesQuery.coinA query) in
      let coinB := default "" (KlinesQuery.coinB query) in
      if String.eqb coinA coinB then
        ret (Status400 "coinA and coinB must be different")
      else
        let* cached := cache_get coinA coinB interval in
        let* klines :=
          match cached with
          | Some klines => ret klines
          | None =>
              let* klines :=
                await_getSyntheticPair env (toUpperCase coinA) (toUpperCase coinB)
                  interval limit in
              let* _ := cache_set coinA coinB interval klines in
              ret klines
          end in
        let* stats := statistics env klines in
        ret (KlinesJson (coinA +:+ "/" +:+ coinB) interval (length klines) klines stats)).

(** [app.post('/api/refresh', ...)]; [getSyntheticPair] is called without a
    limit, which is then its default, 500. *)
Definition api_refresh (env : Env) (body : RefreshBody.t) : World → Response * World :=
  try_catch (
    let interval := default "1h" (RefreshBody.interval body) in
    if negb (truthy (RefreshBody.coinA body)) || negb (truthy (RefreshBody.coinB body)) then
      ret (Status400 "Missing required parameters: coinA and coinB")
    else
      let coinA := default "" (RefreshBody.coinA body) in
      let coinB := default "" (RefreshBody.coinB body) in
      let* _ := cache_delete coinA coinB interval in
      let* klines :=
        await_getSyntheticPair env (toUpperCase coinA) (toUpperCase coinB)
          interval (Some 500) in
      let* _ := cache_set coinA coinB interval klines in
      ret (RefreshJson "Cache refreshed" (coinA +:+ "/" +:+ coinB) (length klines))).

Close Scope handler_scope.

(** ** The list of coins ([BinanceAPI.getExchangeInfo], [/api/symbols]) *)

Module ExchangeInfo.

(** One element of [response.data.symbols], with the members the code
    reads. *)
Record Symbol : Type := mkSymbol {
  symbol : string;
  status : string;
  baseAsset : string;
  quoteAsset : string
}.

(** What [axios.get] of [/api/v3/exchangeInfo] settles to: the [symbols] of
    the answer, or an error with its [message]. *)
Inductive Outcome : Type :=
| Data (symbols : list Symbol)
| Failure (message : string).

(** An element of the array [getExchangeInfo] returns. *)
Record Coin : Type := mkCoin {
  coinSymbol : string;
  coinBaseAsset : string;
  coinQuoteAsset : string
}.

End ExchangeInfo.

(** [s.endsWith(suffix)] *)
Definition endsWith (s suffix : string) : bool :=
  bool_decide (list_ascii_of_string suffix `suffix_of` list_ascii_of_string s).

(** The filter of [getExchangeInfo]. *)
Definition isTradingUsdtPair (s : ExchangeInfo.Symbol) : bool :=
  endsWith (ExchangeInfo.symbol s) "USDT"
  && String.eqb (ExchangeInfo.status s) "TRADING".

(** [BinanceAPI.getExchangeInfo]: the trading pairs quoted in USDT; any
    error is rethrown with a prefix. *)
Definition getExchangeInfo (outcome : ExchangeInfo.Outcome)
  : Result (list ExchangeInfo.Coin) :=
  match outcome with
  | ExchangeInfo.Data symbols =>
      Resolved
        (map (fun s => ExchangeInfo.mkCoin (ExchangeInfo.symbol s)
                         (ExchangeInfo.baseAsset s) (ExchangeInfo.quoteAsset s))
           (List.filter isTradingUsdtPair symbols))
  | ExchangeInfo.Failure message =>
      Rejected ("Failed to fetch symbols: " +:+ message)
  end.

(** [[...new Set(values)]]: the distinct values, each at the place of its
    first occurrence. *)
Definition Set_values (values : list string) : list string :=
  foldl (fun seen x => if bool_decide (x ∈ seen) then seen else seen ++ [x]) [] values.

(** The order [Array.prototype.sort] uses without a comparator, on strings of
    ASCII characters: code unit by code unit. *)
Definition string_le (s1 s2 : string) : Prop := String.leb s1 s2 = true.

Global Instance string_le_dec : RelDecision string_le.
Proof. intros s1 s2. unfold string_le. apply _. Defined.

(** [coins.sort()]: the sorted rearrangement of the array. *)
Definition Array_sort (coins : list string) : list string :=
  merge_sort string_le coins.

Inductive SymbolsResponse : Type :=
| SymbolsJson (count : nat) (coins : list string)
| SymbolsStatus500 (error : string).

(** [app.get('/api/symbols', ...)] *)
Definition api_symbols (outcome : ExchangeInfo.Outcome) : SymbolsResponse :=
  match getExchangeInfo outcome with
  | Resolved symbols =>
      let coins := Set_values (map ExchangeInfo.coinBaseAsset symbols) in
      let coins := coins ++ ["USDT"] in
      let coins := Array_sort coins in
      SymbolsJson (length coins) coins
  | Rejected message => SymbolsStatus500 message
  end.

(** ** Indicators ([src/public/js/chart.js], [src/public/js/app.js]) *)

Module LinePoint.
(** A point [{ time, value }] of a line series. *)
Record t : Type := mk { time : Z; value : float }.
End LinePoint.

(** The JavaScript number of a count (exact below 2^53). *)
Fixpoint float_of_nat (n : nat) : float :=
  match n with
  | O => 0%float
  | S n' => (float_of_nat n' + 1)%float
  end.

(** [for (let j = 0; j < period; j++) sum += klines[i - j].close]: [count]
    rounds are left, the next one with index [j]. *)
Fixpoint windowSum (klines : list Bar) (i : Z) (j count : nat) (sum : float)
  : Result float :=
  match count with
  | O => Resolved sum
  | S count' =>
      match at_index klines (i - Z.of_nat j) with
      | None => Rejected (TypeError_undefined "close")
      | Some k => windowSum klines i (S j) count' (sum + close k)%float
      end
  end.

(** [for (let i = period - 1; i < klines.length; i++) { ... }] of
    [addMovingAverage]: [rounds] is the number of rounds left, the next one
    with index [i]. *)
Fixpoint movingAverageLoop (klines : list Bar) (period : nat) (i : Z) (rounds : nat)
    (maData : list LinePoint.t) : Result (list LinePoint.t) :=
  match rounds with
  | O => Resolved maData
  | S rounds' =>
      match windowSum klines i 0 period 0 with
      | Rejected error => Rejected error
      | Resolved sum =>
          let avg := (sum / float_of_nat period)%float in
          match at_index klines i with
          | None => Rejected (TypeError_undefined "time")
          | Some k =>
              movingAverageLoop klines period (i + 1) rounds'
                (maData ++ [LinePoint.mk (time k) avg])
          end
      end
  end.

(** [addMovingAverage(klines, period)], as the data it hands to the line
    series it creates: [null] when no chart has been initialised.  The loop
    runs for [i = period - 1, ..., klines.length - 1]. *)
Definition addMovingAverage (chart : bool) (klines : list Bar) (period : nat)
  : Result (option (list LinePoint.t)) :=
  if negb chart then Resolved None
  else
    let first := Z.of_nat period - 1 in
    match movingAverageLoop klines period first
            (Z.to_nat (Z.of_nat (length klines) - first)) [] with
    | Resolved maData => Resolved (Some maData)
    | Rejected error => Rejected error
    end.

(** [for (let i = 0; i < period; i++) sum += klines[i].close] *)
Fixpoint seedSum (klines : list Bar) (i count : nat) (sum : float) : Result float :=
  match count with
  | O => Resolved sum
  | S count' =>
      match klines !! i with
      | None => Rejected (TypeError_undefined "close")
      | Some k => seedSum klines (S i) count' (sum + close k)%float
      end
  end.

(** [for (let i = period; i < klines.length; i++) { ... }] of
    [addExponentialMovingAverage]. *)
Fixpoint exponentialLoop (klines : list Bar) (multiplier : float) (i rounds : nat)
    (ema : float) (emaData : list LinePoint.t) : Result (list LinePoint.t) :=
  match rounds with
  | O => Resolved emaData
  | S rounds' =>
      match klines !! i with
      | None => Rejected (TypeError_undefined "close")
      | Some k =>
          let ema := ((close k - ema) * multiplier + ema)%float in
          exponentialLoop klines multiplier (S i) rounds' ema
            (emaData ++ [LinePoint.mk (time k) ema])
      end
  end.

(** [addExponentialMovingAverage(klines, period)], as the data it hands to
    the line series it creates. *)
Definition addExponentialMovingAverage (chart : bool) (klines : list Bar)
    (period : nat) : Result (option (list LinePoint.t)) :=
  if negb chart then Resolved None
  else
    let multiplier := (2 / (float_of_nat period + 1))%float in
    match seedSum klines 0 period 0 with
    | Rejected error => Rejected error
    | Resolved sum =>
        let ema := (sum / float_of_nat period)%float in
        match at_index klines (Z.of_nat period - 1) with
        | None => Rejected (TypeError_undefined "time")
        | Some k =>
            match exponentialLoop klines multiplier period
                    (length klines - period) ema [LinePoint.mk (time k) ema] with
            | Resolved emaData => Resolved (Some emaData)
            | Rejected error => Rejected error
            end
        end
    end.

(** [addDefaultIndicators(klines)] of [app.js]: what it pushes on
    [indicators]. *)
Definition addDefaultIndicators (chart : bool) (klines : list Bar)
    (indicators : list (option (list LinePoint.t)))
  : Result (list (option (list LinePoint.t))) :=
  if bool_decide (length klines < 50)%nat then Resolved indicators
  else
    match addMovingAverage chart klines 20 with
    | Rejected error => Rejected error
    | Resolved ma =>
        match addExponentialMovingAverage chart klines 50 with
        | Rejected error => Rejected error
        | Resolved ema => Resolved (indicators ++ [ma] ++ [ema])
        end
    end.

(** ** The browser side ([src/public/js/api.js], [src/public/js/app.js]) *)

(** [data.error || fallback] *)
Definition error_or (error fallback : string) : string :=
  if truthy (Some error) then error else fallback.

(** [fetchKlines(coinA, coinB, interval)]: the request carries the default
    limit as the string [500]; an answer whose [success] is false is thrown
    as an error.  The server is the handler itself. *)
Definition fetchKlines (env : Env) (coinA coinB interval : string) : Handler Response :=
  fun w =>
    let query := KlinesQuery.mk (Some coinA) (Some coinB) (Some interval) (Some "500") in
    let '(data, w') := api_klines env query w in
    match data with
    | Status400 error | Status500 error =>
        (Rejected (error_or error "Failed to fetch klines"), w')
    | _ => (Resolved data, w')
    end.

(** [refreshCache(coinA, coinB, interval)] *)
Definition refreshCache (env : Env) (coinA coinB interval : string) : Handler Response :=
  fun w =>
    let body := RefreshBody.mk (Some coinA) (Some coinB) (Some interval) in
    let '(data, w') := api_refresh env body w in
    match data with
    | Status400 error | Status500 error =>
        (Rejected (error_or error "Failed to refresh cache"), w')
    | _ => (Resolved data, w')
    end.

(** The time a request or an answer spends on the way. *)
Definition elapse (latency : Z) : Handler unit :=
  fun w => (Resolved tt, mkWorld (cache w) (clock w + latency) (events w)).

(** What [loadChartData] ends with, up to the point where it has the
    answer: an alert, or the answer it goes on to draw. *)
Inductive LoadOutcome : Type :=
| ShowError (message : string)
| Received (response : Response).

(** [loadChartData(forceRefresh)] for the values of the three selects, as
    the requests it sends to the server; what it draws afterwards is not
    modelled. *)
Definition loadChartData (env : Env) (latency : Z) (coinA coinB interval : string)
    (forceRefresh : bool) (w : World) : LoadOutcome * World :=
  if negb (truthy (Some coinA)) || negb (truthy (Some coinB)) then
    (ShowError "Please select both coins", w)
  else if String.eqb coinA coinB then
    (ShowError "Please select different coins", w)
  else
    match
      bind (if forceRefresh then
              bind (refreshCache env coinA coinB interval) (fun _ => elapse latency)
            else ret tt)
        (fun _ => fetchKlines env coinA coinB interval) w
    with
    | (Resolved response, w') => (Received response, w')
    | (Rejected message, w') => (ShowError ("Failed to load data: " +:+ message), w')
    end.

(** ** Vocabulary of the statements and sample data *)

(** A bar written as the tuple (t, o, h, l, c, v) of the specification's
    scenarios. *)
Definition bar (t : Z) (o h l c v : float) : Bar := mkBar t o h l c v.

(** The string [s] has the character [c] in it. *)
Fixpoint contains (c : ascii) (s : string) : bool :=
  match s with
  | EmptyString => false
  | String c' s' => if Ascii.eqb c c' then true else contains c s'
  end.

(** The bar [k] carries the four price ratios of [klineA] over [klineB] and
    [klineA]'s volume. *)
Definition fieldwiseRatio (k klineA klineB : Bar) : Prop :=
  open k = (open klineA / open klineB)%float ∧
  high k = (high klineA / high klineB)%float ∧
  low k = (low klineA / low klineB)%float ∧
  close k = (close klineA / close klineB)%float ∧
  volume k = volume klineA.

(** The world a freshly started server is in. *)
Definition world0 : World := mkWorld CacheManager.constructor 1700000000000 [].

(** A provider that knows two symbols whose bars never share a second. *)
Definition env_disjoint : Env :=
  mkEnv
    (fun symbol _ _ =>
       if String.eqb symbol "BTCUSDT" then
         (120, AxiosData [mkRow 100000 20000 20100 19900 20050 10;
                          mkRow 200000 20050 20200 20000 20100 12])
       else
         (80, AxiosData [mkRow 150000 2000 2010 1990 2005 5;
                         mkRow 250000 2005 2020 2000 2010 6]))
    (fun _ => Some 500)
    (fun x => x).

(** A provider whose two symbols share the seconds 100 and 300. *)
Definition env_overlap : Env :=
  mkEnv
    (fun symbol _ _ =>
       if String.eqb symbol "BTCUSDT" then
         (120, AxiosData [mkRow 100000 20000 20100 19900 20050 10;
                          mkRow 200000 20050 20200 20000 20100 12;
                          mkRow 300000 20100 20300 20050 20200 9])
       else
         (80, AxiosData [mkRow 100000 2000 2010 1990 2005 5;
                         mkRow 300000 2005 2020 2000 2010 6]))
    (fun _ => Some 500)
    (fun x => x).

Definition query_BTC_ETH : KlinesQuery.t :=
  KlinesQuery.mk (Some "BTC") (Some "ETH") None None.

Definition body_BTC_ETH : RefreshBody.t :=
  RefreshBody.mk (Some "BTC") (Some "ETH") None.

(** A provider that throttles every symbol but [BTCUSDT]. *)
Definition env_rate_limited : Env :=
  mkEnv
    (fun symbol _ _ =>
       if String.eqb symbol "BTCUSDT" then
         (120, AxiosData [mkRow 100000 20000 20100 19900 20050 10])
       else
         (30, AxiosStatus 429 (Some "Too many requests.")
                "Request failed with status code 429"))
    (fun _ => Some 500)
    (fun x => x).

(** What [/api/klines] does once it has the series: the statistics and the
    answer, or the error thrown on the way. *)
Definition answer_with (env : Env) (coinA coinB interval : string)
    (klines : list Bar) : World → Response * World :=
  try_catch
    (bind (statistics env klines)
       (fun stats =>
          ret (KlinesJson (coinA +:+ "/" +:+ coinB) interval (length klines) klines
                 stats))).


(** * Properties *)

(** ** The timestamp index *)

Section JSMapFacts.
Context {V : Type}.
Implicit Types (entries : list (Z * V)) (k : Z) (v : V).

Lemma of_entries_snoc entries e :
  JSMap.of_entries (entries ++ [e]) = <[e.1 := e.2]> (JSMap.of_entries entries).
Proof. unfold JSMap.of_entries. by rewrite foldl_snoc. Qed.

Lemma of_entries_get_Some entries k v :
  JSMap.get (JSMap.of_entries entries) k = Some v → (k, v) ∈ entries.
Proof.
  unfold JSMap.get. induction entries as [|[k' v'] entries IH] using rev_ind.
  - unfold JSMap.of_entries. simpl. by rewrite lookup_empty.
  - rewrite of_entries_snoc, lookup_insert. simpl. case_decide as Hk.
    + intros [= ->]. subst k'. apply elem_of_app. right. by apply list_elem_of_singleton.
    + intros Hget. apply elem_of_app. left. by apply IH.
Qed.

Lemma of_entries_get_None entries k :
  JSMap.get (JSMap.of_entries entries) k = None ↔ k ∉ entries.*1.
Proof.
  unfold JSMap.get. induction entries as [|[k' v'] entries IH] using rev_ind.
  - unfold JSMap.of_entries. simpl. rewrite lookup_empty.
    split; [intros _; apply not_elem_of_nil | done].
  - rewrite of_entries_snoc, lookup_insert, fmap_app, elem_of_app. simpl.
    rewrite list_elem_of_singleton. case_decide as Hk.
    + split; [done | intros Hn; destruct Hn; by right].
    + rewrite IH. split; [intros Hn [?|?]; [done | by subst] | intros Hn ?; apply Hn; by left].
Qed.

(** With pairwise distinct keys the index returns the entry itself. *)
Lemma of_entries_get_NoDup entries k v :
  NoDup entries.*1 → (k, v) ∈ entries →
  JSMap.get (JSMap.of_entries entries) k = Some v.
Proof.
  intros Hnd Hin.
  destruct (JSMap.get (JSMap.of_entries entries) k) as [v'|] eqn:Hget.
  - apply of_entries_get_Some in Hget. f_equal.
    clear -Hnd Hin Hget. induction entries as [|[k0 v0] entries IH]; [by apply elem_of_nil in Hin|].
    simpl in Hnd. apply NoDup_cons in Hnd as [Hk0 Hnd].
    apply elem_of_cons in Hin as [Hin|Hin], Hget as [Hget|Hget].
    + congruence.
    + injection Hin as -> ->. destruct Hk0. apply list_elem_of_fmap. by exists (k0, v').
    + injection Hget as -> ->. destruct Hk0. apply list_elem_of_fmap. by exists (k0, v).
    + by apply IH.
  - apply of_entries_get_None in Hget. destruct Hget.
    apply list_elem_of_fmap. by exists (k, v).
Qed.

End JSMapFacts.

(** ** The timestamp index of coin B's bars *)

Lemma klinesBMapOf_Some klinesB ts klineB :
  JSMap.get (klinesBMapOf klinesB) ts = Some klineB →
  klineB ∈ klinesB ∧ time klineB = ts.
Proof.
  intros Hget. apply of_entries_get_Some in Hget.
  apply list_elem_of_fmap in Hget as (k & [= -> ->] & Hk). done.
Qed.

Lemma klinesBMapOf_None klinesB ts :
  JSMap.get (klinesBMapOf klinesB) ts = None ↔ ts ∉ time <$> klinesB.
Proof.
  unfold klinesBMapOf. rewrite of_entries_get_None.
  by rewrite <- list_fmap_compose.
Qed.

Lemma klinesBMapOf_is_Some klinesB klineB :
  klineB ∈ klinesB →
  ∃ k, JSMap.get (klinesBMapOf klinesB) (time klineB) = Some k.
Proof.
  intros Hin. destruct (JSMap.get _ _) as [k|] eqn:Hget; [by exists k|].
  apply klinesBMapOf_None in Hget. destruct Hget.
  apply list_elem_of_fmap. by exists klineB.
Qed.

Lemma klinesBMapOf_NoDup klinesB klineB :
  NoDup (time <$> klinesB) → klineB ∈ klinesB →
  JSMap.get (klinesBMapOf klinesB) (time klineB) = Some klineB.
Proof.
  intros Hnd Hin. apply of_entries_get_NoDup.
  - by rewrite <- list_fmap_compose.
  - apply list_elem_of_fmap. by exists klineB.
Qed.

(** ** The synthetic series as a filtering map over coin A's bars *)

(** The scenario of the specification: series A has a bar at 100, 200 and
    300, series B at 100 and 300 only. *)
Example syntheticKlines_scenario :
  syntheticKlines
    [bar 100 20000 20100 19900 20050 10; bar 200 1 1 1 1 1; bar 300 8 8 8 8 2]
    [bar 100 2000 2010 1990 2005 5; bar 300 2 4 8 16 7]
  = [bar 100 10 10 10 10 10; bar 300 4 2 1 0.5 2].
Proof. vm_compute. reflexivity. Qed.

Lemma filterNotNull_map {A B : Type} (f : A → option B) (l : list A) :
  filterNotNull (map f l) = omap f l.
Proof. induction l as [|x l IH]; simpl; [done|]. destruct (f x); by rewrite IH. Qed.

Lemma syntheticKlines_omap klinesA klinesB :
  syntheticKlines klinesA klinesB
  = omap (syntheticOrNull (klinesBMapOf klinesB)) klinesA.
Proof. apply filterNotNull_map. Qed.

Lemma syntheticOrNull_time klinesBMap klineA k :
  syntheticOrNull klinesBMap klineA = Some k → time k = time klineA.
Proof. unfold syntheticOrNull. destruct (JSMap.get _ _); [|done]. by intros [= <-]. Qed.

Lemma syntheticKlines_elem_of klinesA klinesB k :
  k ∈ syntheticKlines klinesA klinesB ↔
  ∃ klineA klineB, klineA ∈ klinesA ∧
    JSMap.get (klinesBMapOf klinesB) (time klineA) = Some klineB ∧
    k = ratioBar klineA klineB.
Proof.
  rewrite syntheticKlines_omap, list_elem_of_omap. unfold syntheticOrNull. split.
  - intros (klineA & HA & Hk). destruct (JSMap.get _ _) as [klineB|] eqn:Hget; [|done].
    injection Hk as <-. by exists klineA, klineB.
  - intros (klineA & klineB & HA & Hget & ->). exists klineA. by rewrite Hget.
Qed.

(** The timestamps of the result, in order, are those of coin A's bars that
    coin B has too. *)
Lemma syntheticKlines_times klinesA klinesB :
  time <$> syntheticKlines klinesA klinesB
  = filter (λ ts, ts ∈ time <$> klinesB) (time <$> klinesA).
Proof.
  rewrite syntheticKlines_omap.
  induction klinesA as [|klineA klinesA IH]; [done|].
  simpl. rewrite filter_cons. unfold syntheticOrNull at 1.
  destruct (JSMap.get _ _) as [klineB|] eqn:Hget.
  - apply klinesBMapOf_Some in Hget as [HB Ht].
    rewrite decide_True by (apply list_elem_of_fmap; by exists klineB).
    simpl. f_equal. exact IH.
  - apply klinesBMapOf_None in Hget. rewrite decide_False by done. exact IH.
Qed.

(** When both fetches resolve, [getSyntheticPair] resolves, once the later of
    the two has, with the series computed from the two arrays. *)
Lemma getSyntheticPair_resolved env coinA coinB interval limit dA dB klinesA klinesB :
  getKlines env (coinA +:+ "USDT") interval limit = (dA, Resolved klinesA) →
  getKlines env (coinB +:+ "USDT") interval limit = (dB, Resolved klinesB) →
  getSyntheticPair env coinA coinB interval limit
  = (Z.max dA dB, Resolved (syntheticKlines klinesA klinesB)).
Proof. intros HA HB. unfold getSyntheticPair. by rewrite HA, HB. Qed.

(** ** Field-by-field ratios *)

(** C1. Every bar of the result stands at a timestamp that both series have,
    and is, field by field, the bar of series A at that timestamp divided by
    the bar of series B at that timestamp (open by open, high by high, low by
    low, close by close), with series A's volume.  Conversely a bar is
    emitted for every timestamp present in both series; the divisor is the
    bar of series B with that timestamp, which is the only one when the
    timestamps of series B are pairwise distinct. *)
Theorem syntheticKlines_fieldwise (klinesA klinesB : list Bar) :
  (∀ i k, syntheticKlines klinesA klinesB !! i = Some k →
     ∃ klineA klineB, klineA ∈ klinesA ∧ klineB ∈ klinesB ∧
       time klineA = time k ∧ time klineB = time k ∧
       fieldwiseRatio k klineA klineB) ∧
  (∀ klineA klineB, klineA ∈ klinesA → klineB ∈ klinesB →
     time klineA = time klineB →
     ∃ k klineB', k ∈ syntheticKlines klinesA klinesB ∧
       klineB' ∈ klinesB ∧ time klineB' = time klineA ∧
       (NoDup (time <$> klinesB) → klineB' = klineB) ∧
       time k = time klineA ∧ fieldwiseRatio k klineA klineB').
Proof.
  split.
  - intros i k Hi. apply list_elem_of_lookup_2 in Hi.
    apply syntheticKlines_elem_of in Hi as (klineA & klineB & HA & Hget & ->).
    apply klinesBMapOf_Some in Hget as [HB Ht].
    exists klineA, klineB. by repeat split.
  - intros klineA klineB HA HB Ht.
    destruct (klinesBMapOf_is_Some klinesB klineB HB) as [klineB' Hget].
    rewrite <- Ht in Hget.
    exists (ratioBar klineA klineB'), klineB'.
    split; [apply syntheticKlines_elem_of; by exists klineA, klineB'|].
    pose proof (klinesBMapOf_Some _ _ _ Hget) as [HB' Ht'].
    repeat split; try done.
    intros Hnd. rewrite Ht in Hget.
    rewrite (klinesBMapOf_NoDup _ _ Hnd HB) in Hget. by injection Hget.
Qed.

Lemma syntheticKlines_fieldwise_witness :
  ∃ klineA klineB,
    klineA ∈ [bar 100 20000 20100 19900 20050 10; bar 200 1 1 1 1 1] ∧
    klineB ∈ [bar 100 2000 2010 1990 2005 5] ∧
    time klineA = 100 ∧ time klineB = 100 ∧
    fieldwiseRatio (bar 100 10 10 10 10 10) klineA klineB.
Proof.
  apply (proj1 (syntheticKlines_fieldwise
                  [bar 100 20000 20100 19900 20050 10; bar 200 1 1 1 1 1]
                  [bar 100 2000 2010 1990 2005 5]) 0%nat (bar 100 10 10 10 10 10)).
  vm_compute. reflexivity.
Defined.

(** ** Order *)

Lemma StronglySorted_filter {A : Type} (R : relation A) (P : A → Prop)
    `{!∀ x, Decision (P x)} (l : list A) :
  StronglySorted R l → StronglySorted R (filter P l).
Proof.
  induction 1 as [|x l Hl IH Hx]; [constructor|].
  rewrite filter_cons. case_decide; [|done].
  constructor; [done|]. apply Forall_forall. intros y Hy.
  apply list_elem_of_filter in Hy as [_ Hy]. by eapply Forall_forall in Hx.
Qed.

Lemma Sorted_lt_filter (P : Z → Prop) `{!∀ x, Decision (P x)} (l : list Z) :
  Sorted Z.lt l → Sorted Z.lt (filter P l).
Proof.
  intros Hl. apply StronglySorted_Sorted, StronglySorted_filter.
  by apply Sorted_StronglySorted; [apply _|].
Qed.

(** The bars of the result come from a subsequence of coin A's bars, one
    for one and in the same order. *)
Lemma syntheticKlines_sublist klinesA klinesB :
  ∃ kept, kept `sublist_of` klinesA ∧
    Forall2 (λ k klineA, ∃ klineB, klineB ∈ klinesB ∧ k = ratioBar klineA klineB)
      (syntheticKlines klinesA klinesB) kept.
Proof.
  rewrite syntheticKlines_omap.
  induction klinesA as [|klineA klinesA (kept & Hsub & Hall)].
  - exists []. split; [done | constructor].
  - simpl. unfold syntheticOrNull at 1.
    destruct (JSMap.get _ _) as [klineB|] eqn:Hget.
    + apply klinesBMapOf_Some in Hget as [HB _].
      exists (klineA :: kept). split; [by constructor|].
      constructor; [by exists klineB | exact Hall].
    + exists kept. split; [by constructor | exact Hall].
Qed.

(** C4. When the timestamps of series A are strictly increasing, so are
    those of the synthetic series, and its bars follow the order of the bars
    of series A they were computed from: they correspond, one for one and in
    order, to a subsequence of series A. *)
Theorem syntheticKlines_strictly_increasing (klinesA klinesB : list Bar) :
  Sorted Z.lt (time <$> klinesA) →
  Sorted Z.lt (time <$> syntheticKlines klinesA klinesB) ∧
  ∃ kept, kept `sublist_of` klinesA ∧
    Forall2 (λ k klineA, ∃ klineB, klineB ∈ klinesB ∧ k = ratioBar klineA klineB)
      (syntheticKlines klinesA klinesB) kept.
Proof.
  intros HA. split; [|apply syntheticKlines_sublist].
  rewrite syntheticKlines_times. by apply Sorted_lt_filter.
Qed.

Lemma syntheticKlines_strictly_increasing_witness :
  Sorted Z.lt (time <$> syntheticKlines
    [bar 100 20000 20100 19900 20050 10; bar 200 1 1 1 1 1; bar 300 8 8 8 8 2]
    [bar 300 2 4 8 16 7; bar 100 2000 2010 1990 2005 5]).
Proof.
  apply (syntheticKlines_strictly_increasing
    [bar 100 20000 20100 19900 20050 10; bar 200 1 1 1 1 1; bar 300 8 8 8 8 2]
    [bar 300 2 4 8 16 7; bar 100 2000 2010 1990 2005 5]).
  simpl. repeat constructor; lia.
Defined.

(** ** Empty overlap *)

(** C5. When the two fetched series have no timestamp in common,
    [getSyntheticPair] resolves (it does not throw) with the empty array. *)
Theorem getSyntheticPair_no_overlap env coinA coinB interval limit dA dB
    (klinesA klinesB : list Bar) :
  getKlines env (coinA +:+ "USDT") interval limit = (dA, Resolved klinesA) →
  getKlines env (coinB +:+ "USDT") interval limit = (dB, Resolved klinesB) →
  (∀ ts, ts ∈ time <$> klinesA → ts ∉ time <$> klinesB) →
  getSyntheticPair env coinA coinB interval limit = (Z.max dA dB, Resolved []).
Proof.
  intros HA HB Hdisj.
  rewrite (getSyntheticPair_resolved _ _ _ _ _ _ _ _ _ HA HB). do 2 f_equal.
  apply (fmap_nil_inv time). rewrite syntheticKlines_times.
  apply elem_of_nil_inv. intros ts Hts.
  apply list_elem_of_filter in Hts as [HinB HinA]. by apply (Hdisj ts).
Qed.


Lemma getSyntheticPair_no_overlap_witness :
  getSyntheticPair env_disjoint "BTC" "ETH" "1h" (Some 500)
  = (Z.max 120 80, Resolved []).
Proof.
  apply (getSyntheticPair_no_overlap env_disjoint "BTC" "ETH" "1h" (Some 500) 120 80
           [bar 100 20000 20100 19900 20050 10; bar 200 20050 20200 20000 20100 12]
           [bar 150 2000 2010 1990 2005 5; bar 250 2005 2020 2000 2010 6]).
  - vm_compute. reflexivity.
  - vm_compute. reflexivity.
  - intros ts Hin Hin'. simpl in Hin, Hin'.
    repeat (apply elem_of_cons in Hin as [->|Hin]);
      try (by apply elem_of_nil in Hin);
      repeat (apply elem_of_cons in Hin' as [Hin'|Hin']);
      try lia; by apply elem_of_nil in Hin'.
Defined.

(** ** Length *)

Lemma syntheticKlines_length_times klinesA klinesB :
  length (syntheticKlines klinesA klinesB)
  = length (filter (λ ts, ts ∈ time <$> klinesB) (time <$> klinesA)).
Proof. by rewrite <- syntheticKlines_times, length_fmap. Qed.

(** The counterexample to C2 as stated: the specification's own scenario.
    Series A has the timestamps 100, 200 and 300, series B only 100 and 300;
    the result has two bars, which is the minimum of the two lengths,
    although 200 is a timestamp of series A only. *)
Lemma syntheticKlines_length_min_not_coinciding :
  let klinesA := [bar 100 20000 20100 19900 20050 10;
                  bar 200 20050 20200 20000 20100 12;
                  bar 300 20100 20300 20050 20200 9] in
  let klinesB := [bar 100 2000 2010 1990 2005 5; bar 300 2005 2020 2000 2010 6] in
  Sorted Z.lt (time <$> klinesA) ∧ Sorted Z.lt (time <$> klinesB) ∧
  length (syntheticKlines klinesA klinesB)
  = (length klinesA `min` length klinesB)%nat ∧
  ¬ (∀ ts, ts ∈ time <$> klinesA ↔ ts ∈ time <$> klinesB).
Proof.
  simpl. split; [repeat constructor; lia|]. split; [repeat constructor; lia|].
  split; [vm_compute; reflexivity|].
  intros Hsame. assert (Hin : 200 ∈ [100; 300]).
  { apply Hsame. apply elem_of_cons. right. apply elem_of_cons. by left. }
  repeat (apply elem_of_cons in Hin as [Hin|Hin]; [lia|]).
  by apply elem_of_nil in Hin.
Qed.

(** C2, amended. For two series whose timestamps are pairwise distinct (as
    they are in every valid, strictly increasing series) the synthetic series
    is at most as long as the shorter of the two, and it is exactly that long
    if and only if every timestamp of one of the series is also a timestamp
    of the other. *)
Theorem syntheticKlines_length (klinesA klinesB : list Bar) :
  NoDup (time <$> klinesA) → NoDup (time <$> klinesB) →
  (length (syntheticKlines klinesA klinesB)
   ≤ length klinesA `min` length klinesB)%nat ∧
  (length (syntheticKlines klinesA klinesB)
   = (length klinesA `min` length klinesB)%nat
   ↔ (time <$> klinesA) ⊆ (time <$> klinesB) ∨
     (time <$> klinesB) ⊆ (time <$> klinesA)).
Proof.
  intros HA HB. rewrite syntheticKlines_length_times.
  rewrite <- (length_fmap time klinesA), <- (length_fmap time klinesB).
  set (tA := time <$> klinesA) in *. set (tB := time <$> klinesB) in *.
  set (T := filter (λ ts, ts ∈ tB) tA).
  assert (HTA : (length T ≤ length tA)%nat) by apply length_filter.
  assert (HsubB : T ⊆+ tB).
  { apply NoDup_submseteq; [by apply NoDup_filter|].
    intros ts Hts. by apply list_elem_of_filter in Hts as [? _]. }
  assert (HTB : (length T ≤ length tB)%nat) by by apply submseteq_length.
  split; [lia|]. split.
  - intros Hlen. destruct (decide (length tA ≤ length tB)%nat) as [Hle|Hgt].
    + left. intros ts Hts. destruct (decide (ts ∈ tB)) as [|Hn]; [done|].
      pose proof (length_filter_lt (λ ts, ts ∈ tB) tA ts Hts Hn). fold T in H. lia.
    + right. intros ts Hts.
      assert (Hperm : T ≡ₚ tB) by (apply submseteq_length_Permutation; [done | lia]).
      rewrite <- Hperm in Hts. by apply list_elem_of_filter in Hts as [_ ?].
  - intros [Hsub|Hsub].
    + assert (length tA ≤ length T)%nat.
      { apply submseteq_length, NoDup_submseteq; [done|].
        intros ts Hts. apply list_elem_of_filter. split; [by apply Hsub | done]. }
      lia.
    + assert (length tB ≤ length T)%nat.
      { apply submseteq_length, NoDup_submseteq; [done|].
        intros ts Hts. apply list_elem_of_filter. split; [done | by apply Hsub]. }
      lia.
Qed.

Lemma syntheticKlines_length_witness :
  let klinesA := [bar 100 20000 20100 19900 20050 10;
                  bar 200 20050 20200 20000 20100 12] in
  let klinesB := [bar 200 2000 2010 1990 2005 5; bar 400 2005 2020 2000 2010 6] in
  (length (syntheticKlines klinesA klinesB)
   ≤ length klinesA `min` length klinesB)%nat ∧
  (length (syntheticKlines klinesA klinesB)
   = (length klinesA `min` length klinesB)%nat
   ↔ (time <$> klinesA) ⊆ (time <$> klinesB) ∨
     (time <$> klinesB) ⊆ (time <$> klinesA)).
Proof.
  apply (syntheticKlines_length
     [bar 100 20000 20100 19900 20050 10; bar 200 20050 20200 20000 20100 12]
     [bar 200 2000 2010 1990 2005 5; bar 400 2005 2020 2000 2010 6]).
  - simpl. refine (bool_decide_unpack _ _). vm_compute. exact I.
  - simpl. refine (bool_decide_unpack _ _). vm_compute. exact I.
Defined.

(** A valid series, its timestamps strictly increasing, has pairwise
    distinct timestamps. *)
Lemma Sorted_lt_NoDup (l : list Z) : Sorted Z.lt l → NoDup l.
Proof.
  intros Hl. apply Sorted_StronglySorted in Hl; [|apply _].
  induction Hl as [|x l Hl IH Hx]; constructor; [|done].
  intros Hin. eapply Forall_forall in Hx; [|exact Hin]. lia.
Qed.

(** ** Cache keys *)

Lemma append_underscore_inj (a b r r' : string) :
  contains "_" a = false → contains "_" b = false →
  a +:+ "_" +:+ r = b +:+ "_" +:+ r' → a = b.
Proof.
  revert b. induction a as [|c a IH]; intros [|d b] Ha Hb Heq;
    simpl in Heq; cbn [contains] in Ha, Hb.
  - done.
  - injection Heq as <- _. by rewrite Ascii.eqb_refl in Hb.
  - injection Heq as -> _. by rewrite Ascii.eqb_refl in Ha.
  - injection Heq as -> Heq. f_equal.
    destruct (Ascii.eqb "_" d); [done|]. by apply IH.
Qed.

(** The counterexample to C8 as stated: two different symbols, one of which
    contains the separator, whose keys are the same in both orders. *)
Lemma generateKey_collision :
  "BTC_BTC" ≠ "BTC" ∧
  CacheManager.generateKey "BTC_BTC" "BTC" "1h"
  = CacheManager.generateKey "BTC" "BTC_BTC" "1h".
Proof. split; [done | reflexivity]. Qed.

(** C8, amended. For two different symbols that do not contain the
    separator character [_], and every granularity, the key of (A, B) is not
    the key of (B, A). *)
Theorem generateKey_order_sensitive (coinA coinB interval : string) :
  contains "_" coinA = false → contains "_" coinB = false →
  coinA ≠ coinB →
  CacheManager.generateKey coinA coinB interval
  ≠ CacheManager.generateKey coinB coinA interval.
Proof.
  intros HA HB Hne Heq. apply Hne.
  unfold CacheManager.generateKey in Heq.
  by apply (append_underscore_inj _ _ _ _ HA HB Heq).
Qed.

Lemma generateKey_order_sensitive_witness :
  CacheManager.generateKey "BTC" "ETH" "1h"
  ≠ CacheManager.generateKey "ETH" "BTC" "1h".
Proof.
  apply (generateKey_order_sensitive "BTC" "ETH" "1h");
    [reflexivity | reflexivity | discriminate].
Defined.

(** ** TTL *)

Lemma getTTL_1m : CacheManager.getTTL "1m" = JNum 60.
Proof. reflexivity. Qed.

Lemma getTTL_1M : CacheManager.getTTL "1M" = JNum 259200.
Proof. reflexivity. Qed.

Lemma ownProperty_ttlMap_range interval n :
  CacheManager.ownProperty CacheManager.ttlMap interval = Some n →
  60 ≤ n ≤ 259200.
Proof.
  unfold CacheManager.ttlMap. cbn [CacheManager.ownProperty].
  repeat (destruct (String.eqb _ interval); [intros [= <-]; lia|]).
  done.
Qed.

(** Every granularity of the table gets its own duration, between one minute
    and 72 hours. *)
Lemma getTTL_supported interval n :
  (interval, n) ∈ CacheManager.ttlMap →
  CacheManager.getTTL interval = JNum n ∧ 60 ≤ n ≤ 259200.
Proof.
  intros Hin. unfold CacheManager.ttlMap in Hin.
  repeat (apply elem_of_cons in Hin as [[= -> ->]|Hin]; [split; [reflexivity | lia]|]).
  by apply elem_of_nil in Hin.
Qed.

(** A name that is neither in the table nor a property of
    [Object.prototype] gets the default of five minutes. *)
Lemma getTTL_default interval :
  CacheManager.ownProperty CacheManager.ttlMap interval = None →
  interval ∉ CacheManager.Object_prototype →
  CacheManager.getTTL interval = JNum 300.
Proof.
  intros Hown Hproto. unfold CacheManager.getTTL, CacheManager.ttlMap_at.
  rewrite Hown. by rewrite bool_decide_eq_false_2.
Qed.

(** Whatever the granularity, a numeric TTL is at least one minute. *)
Lemma getTTL_at_least_60 interval n :
  CacheManager.getTTL interval = JNum n → 60 ≤ n.
Proof.
  unfold CacheManager.getTTL, CacheManager.ttlMap_at.
  destruct (CacheManager.ownProperty _ _) as [m|] eqn:Hown.
  - apply ownProperty_ttlMap_range in Hown.
    destruct m; intros [= <-]; lia.
  - case_bool_decide; intros [= <-]. lia.
Qed.

(** C7, the failing input. [constructor] is not a granularity of the table,
    yet [ttlMap['constructor']] is the function every object literal
    inherits, which is truthy: [getTTL] returns it instead of the default of
    300 seconds, and an entry stored with it gets the expiry stamp [NaN] and
    is never considered expired. *)
Theorem getTTL_inherited_property :
  CacheManager.ownProperty CacheManager.ttlMap "constructor" = None ∧
  CacheManager.getTTL "constructor" = JInherited "constructor" ∧
  CacheManager.getTTL "constructor" ≠ JNum 300 ∧
  ∀ (cache : NodeCache.Cache (list Bar)) coinA coinB data now later,
    let key := CacheManager.generateKey coinA coinB "constructor" in
    let stored := (CacheManager.set cloneKlines cache coinA coinB "constructor" data now).2 in
    ∃ w, NodeCache.data stored !! key = Some w ∧
         NodeCache.t w = NodeCache.LivetimeNaN ∧
         NodeCache.expired w later = false.
Proof.
  split; [reflexivity|]. split; [reflexivity|]. split; [discriminate|].
  intros cache coinA coinB data now later. simpl.
  eexists. split; [apply lookup_insert_eq|]. split; reflexivity.
Qed.

(** ** Reading back what was stored *)

Section GetAfterSet.
Context {V : Type}.
Variable clone : V → V.

Lemma set_lookup (cache : NodeCache.Cache V) coinA coinB interval (data : V) now :
  NodeCache.data (CacheManager.set clone cache coinA coinB interval data now).2
    !! CacheManager.generateKey coinA coinB interval
  = Some (NodeCache.wrap clone cache data (CacheManager.getTTL interval) now).
Proof. simpl. apply lookup_insert_eq. Qed.

Lemma set_options (cache : NodeCache.Cache V) coinA coinB interval (data : V) now :
  NodeCache.options (CacheManager.set clone cache coinA coinB interval data now).2
  = NodeCache.options cache.
Proof. reflexivity. Qed.

(** An entry stored by [CacheManager.set] is live for at least one
    minute. *)
Lemma wrap_not_expired (cache : NodeCache.Cache V) interval (data : V) now later :
  later ≤ now + 60000 →
  NodeCache.expired
    (NodeCache.wrap clone cache data (CacheManager.getTTL interval) now) later
  = false.
Proof.
  intros Hlater. unfold NodeCache.expired, NodeCache.wrap, NodeCache.livetime. simpl.
  destruct (CacheManager.getTTL interval) as [n|] eqn:Httl; [|done].
  apply getTTL_at_least_60 in Httl.
  destruct n; [lia | | lia]. apply bool_decide_eq_false_2. lia.
Qed.

(** C9. On the cache as [CacheManager] configures it ([useClones: false]),
    [set] succeeds and a [get] with the same key right afterwards (at any
    time up to a minute after the [set]) returns the very value that was
    passed to [set]: it never goes through the copying function [clone],
    whatever that function does. *)
Theorem get_after_set (cache : NodeCache.Cache V) coinA coinB interval (data : V)
    now later :
  NodeCache.options cache = NodeCache.options (@CacheManager.constructor V) →
  later ≤ now + 60000 →
  (CacheManager.set clone cache coinA coinB interval data now).1 = true ∧
  (CacheManager.get clone
     (CacheManager.set clone cache coinA coinB interval data now).2
     coinA coinB interval later).1 = Some data.
Proof.
  intros Hopts Hlater. split; [reflexivity|].
  unfold CacheManager.get, NodeCache.get.
  rewrite set_lookup, wrap_not_expired by done.
  unfold NodeCache.unwrap, NodeCache.wrap. rewrite set_options, Hopts. reflexivity.
Qed.

(** For contrast: were [useClones] on, the value read back would have gone
    through [clone], once on the way in and once on the way out. *)
Lemma get_after_set_useClones (cache : NodeCache.Cache V) coinA coinB interval
    (data : V) now later :
  NodeCache.useClones (NodeCache.options cache) = true →
  later ≤ now + 60000 →
  (CacheManager.get clone
     (CacheManager.set clone cache coinA coinB interval data now).2
     coinA coinB interval later).1 = Some (clone (clone data)).
Proof.
  intros Hopts Hlater. unfold CacheManager.get, NodeCache.get.
  rewrite set_lookup, wrap_not_expired by done.
  unfold NodeCache.unwrap, NodeCache.wrap. rewrite set_options, Hopts. reflexivity.
Qed.

End GetAfterSet.

(** References as numbers, with a copy that allocates a new one: the value
    read back is the reference that was stored. *)
Lemma get_after_set_witness :
  (CacheManager.set S CacheManager.constructor "BTC" "ETH" "1m" 7%nat 1000).1 = true ∧
  (CacheManager.get S
     (CacheManager.set S CacheManager.constructor "BTC" "ETH" "1m" 7%nat 1000).2
     "BTC" "ETH" "1m" 1000).1 = Some 7%nat.
Proof.
  apply (get_after_set S CacheManager.constructor "BTC" "ETH" "1m" 7%nat 1000 1000).
  - reflexivity.
  - lia.
Defined.

(** ** Validation of requests *)

(** Unfolds the plumbing of a handler down to the calls it makes. *)
Ltac unfold_handler :=
  unfold try_catch, bind, cache_get, cache_set, cache_delete,
    await_getSyntheticPair, ret, throw, log.

(** The counterexample to C3 as stated: on the read path [btc] and [BTC] are
    the same symbol once put in upper case, but the handler compares them as
    they were supplied.  The request is not refused: both fetches are issued,
    for the same provider symbol, and a series is served. *)
Lemma api_klines_case_insensitive_equal_fetches :
  let query := KlinesQuery.mk (Some "btc") (Some "BTC") None None in
  toUpperCase "btc" = toUpperCase "BTC" ∧
  ∃ data stats,
    (api_klines env_disjoint query world0).1
    = KlinesJson "btc/BTC" "1h" 2 data stats ∧
    events (api_klines env_disjoint query world0).2
    = [EvCacheGet "btc_BTC_1h"; EvFetch "BTCUSDT" "1h" (Some 500);
       EvFetch "BTCUSDT" "1h" (Some 500); EvCacheSet "btc_BTC_1h" (JNum 1800)].
Proof.
  split; [reflexivity|]. eexists _, _. split; vm_compute; reflexivity.
Qed.

(** On the force-refresh path two identical symbols are not compared at
    all. *)
Lemma api_refresh_equal_symbols_fetches :
  let body := RefreshBody.mk (Some "BTC") (Some "BTC") None in
  (api_refresh env_disjoint body world0).1
  = RefreshJson "Cache refreshed" "BTC/BTC" 2 ∧
  events (api_refresh env_disjoint body world0).2
  = [EvCacheDelete "BTC_BTC_1h"; EvFetch "BTCUSDT" "1h" (Some 500);
     EvFetch "BTCUSDT" "1h" (Some 500); EvCacheSet "BTC_BTC_1h" (JNum 1800)].
Proof. split; vm_compute; reflexivity. Qed.

Lemma truthy_default (s : option string) :
  truthy s = true → s = Some (default "" s).
Proof. by destruct s. Qed.

(** C3, amended. On the read path and on the force-refresh path a request
    with a missing (absent or empty) symbol is answered with status 400
    and leaves the world as it was: no cache access, no fetch.  On the read
    path the same holds when the two symbols are equal exactly as supplied
    (the comparison is case-sensitive and precedes the conversion to upper
    case). *)
Theorem invalid_input_rejected_before_fetch (env : Env) (w : World) :
  (∀ query,
     truthy (KlinesQuery.coinA query) = false ∨
     truthy (KlinesQuery.coinB query) = false ∨
     KlinesQuery.coinA query = KlinesQuery.coinB query →
     ∃ error, api_klines env query w = (Status400 error, w)) ∧
  (∀ body,
     truthy (RefreshBody.coinA body) = false ∨
     truthy (RefreshBody.coinB body) = false →
     ∃ error, api_refresh env body w = (Status400 error, w)).
Proof.
  split.
  - intros [coinA coinB interval limit] Hbad. simpl in Hbad.
    unfold api_klines, try_catch. cbn [KlinesQuery.coinA KlinesQuery.coinB].
    destruct (truthy coinA) eqn:HA; [|by eexists].
    destruct (truthy coinB) eqn:HB; [|by eexists].
    destruct Hbad as [?|[?|Heq]]; [done..|]. subst coinB.
    cbn [negb orb]. rewrite String.eqb_refl. by eexists.
  - intros [coinA coinB interval] Hbad. simpl in Hbad.
    unfold api_refresh, try_catch. cbn [RefreshBody.coinA RefreshBody.coinB].
    destruct (truthy coinA) eqn:HA; [|by eexists].
    destruct (truthy coinB) eqn:HB; [|by eexists].
    by destruct Hbad.
Qed.

Lemma invalid_input_rejected_before_fetch_witness :
  (∃ error,
     api_klines env_disjoint (KlinesQuery.mk (Some "BTC") (Some "BTC") (Some "1h") None) world0
     = (Status400 error, world0)) ∧
  (∃ error,
     api_refresh env_disjoint (RefreshBody.mk (Some "BTC") None None) world0
     = (Status400 error, world0)).
Proof.
  split.
  - apply (proj1 (invalid_input_rejected_before_fetch env_disjoint world0)).
    right. right. reflexivity.
  - apply (proj2 (invalid_input_rejected_before_fetch env_disjoint world0)).
    right. reflexivity.
Defined.

(** ** Force refresh *)

Lemma delete_lookup {V : Type} (cache : NodeCache.Cache V) coinA coinB interval :
  NodeCache.data (CacheManager.delete cache coinA coinB interval).2
    !! CacheManager.generateKey coinA coinB interval = None.
Proof.
  unfold CacheManager.delete, NodeCache.del.
  destruct (NodeCache.data cache !! _) eqn:Hkey; simpl; [apply lookup_delete_eq | done].
Qed.

(** C6. A force-refresh request that names both symbols deletes the key
    first, whether or not the cache holds it, then always issues the two
    fetches of a new synthetic computation.  When the computation resolves,
    its result is stored under the key, with the TTL of the granularity
    counted from the moment the fetches completed, and the answer reports
    the length of that new series; when it fails, the answer is the error
    and the key stays deleted.  In either case the answer is the same
    whatever the cache held before. *)
Theorem api_refresh_bypasses_cache (env : Env) (body : RefreshBody.t) (w : World) :
  truthy (RefreshBody.coinA body) = true →
  truthy (RefreshBody.coinB body) = true →
  let coinA := default "" (RefreshBody.coinA body) in
  let coinB := default "" (RefreshBody.coinB body) in
  let interval := default "1h" (RefreshBody.interval body) in
  let key := CacheManager.generateKey coinA coinB interval in
  let fetches :=
    [EvFetch (toUpperCase coinA +:+ "USDT") interval (Some 500);
     EvFetch (toUpperCase coinB +:+ "USDT") interval (Some 500)] in
  let response := (api_refresh env body w).1 in
  let w' := (api_refresh env body w).2 in
  match getSyntheticPair env (toUpperCase coinA) (toUpperCase coinB) interval (Some 500) with
  | (delay, Resolved klines) =>
      response = RefreshJson "Cache refreshed" (coinA +:+ "/" +:+ coinB) (length klines) ∧
      events w' = events w ++ [EvCacheDelete key] ++ fetches
                    ++ [EvCacheSet key (CacheManager.getTTL interval)] ∧
      NodeCache.data (cache w') !! key
      = Some (NodeCache.mkWrapped
                (NodeCache.livetime (CacheManager.getTTL interval) (clock w + delay))
                klines)
  | (delay, Rejected message) =>
      response = Status500 message ∧
      events w' = events w ++ [EvCacheDelete key] ++ fetches ∧
      NodeCache.data (cache w') !! key = None
  end ∧
  ∀ w0 : World, (api_refresh env body w0).1 = response.
Proof.
  intros HA HB. destruct body as [coinA coinB interval].
  cbn [RefreshBody.coinA RefreshBody.coinB RefreshBody.interval] in *.
  unfold api_refresh. unfold_handler.
  cbn [RefreshBody.coinA RefreshBody.coinB RefreshBody.interval].
  rewrite HA, HB. cbn [negb orb].
  split.
  - pose proof (delete_lookup (cache w) (default "" coinA) (default "" coinB)
                  (default "1h" interval)) as Hdel.
    destruct (CacheManager.delete (cache w) _ _ _) as [deleted c1].
    cbn [cache clock events fst snd] in *.
    destruct (getSyntheticPair env _ _ _ _) as [delay [klines|message]].
    + cbn [cache clock events fst snd].
      split; [reflexivity|]. split.
      * by rewrite <- !app_assoc.
      * unfold CacheManager.set, NodeCache.set. cbn [snd cache NodeCache.data].
        rewrite lookup_insert_eq. unfold NodeCache.wrap, cloneKlines.
        by destruct (NodeCache.useClones _).
    + cbn [cache clock events fst snd].
      split; [reflexivity|]. split; [by rewrite <- !app_assoc | exact Hdel].
  - intros w0.
    destruct (CacheManager.delete (cache w) _ _ _) as [deleted c1].
    destruct (CacheManager.delete (cache w0) _ _ _) as [deleted0 c0].
    cbn [cache clock events fst snd].
    by destruct (getSyntheticPair env _ _ _ _) as [delay [klines|message]].
Qed.

(** A refresh right after a refresh: the value stored a moment ago is
    deleted, the series is fetched anew and stored again. *)
Lemma api_refresh_bypasses_cache_witness :
  let world1 := (api_refresh env_overlap body_BTC_ETH world0).2 in
  is_Some (NodeCache.data (cache world1) !! "BTC_ETH_1h") ∧
  (api_refresh env_overlap body_BTC_ETH world1).1
  = RefreshJson "Cache refreshed" "BTC/ETH" 2 ∧
  events (api_refresh env_overlap body_BTC_ETH world1).2
  = events world1
      ++ [EvCacheDelete "BTC_ETH_1h"; EvFetch "BTCUSDT" "1h" (Some 500);
          EvFetch "ETHUSDT" "1h" (Some 500); EvCacheSet "BTC_ETH_1h" (JNum 1800)].
Proof.
  split.
  - vm_compute. eexists. reflexivity.
  - pose proof (api_refresh_bypasses_cache env_overlap body_BTC_ETH
                  (api_refresh env_overlap body_BTC_ETH world0).2 eq_refl eq_refl)
      as [[Hresp [Hev _]] _].
    split; [exact Hresp | exact Hev].
Defined.

(** ** An empty series on the read path *)

(** The counterexample to C10 as stated: after a first request has cached
    the empty array, the series to be returned by the next request is empty
    again, an empty array being truthy, so the cache read is a hit; the
    handler then does NOT store anything: it only reads the cache, the
    entries are as before, and it fails on [klines[-1].close]. *)
Lemma api_klines_empty_hit_without_store :
  let world1 := (api_klines env_disjoint query_BTC_ETH world0).2 in
  (CacheManager.get cloneKlines (cache world1) "BTC" "ETH" "1h" (clock world1)).1
  = Some [] ∧
  (api_klines env_disjoint query_BTC_ETH world1).1
  = Status500 (TypeError_undefined "close") ∧
  events (api_klines env_disjoint query_BTC_ETH world1).2
  = events world1 ++ [EvCacheGet "BTC_ETH_1h"] ∧
  NodeCache.data (cache (api_klines env_disjoint query_BTC_ETH world1).2)
  = NodeCache.data (cache world1).
Proof. repeat split; vm_compute; reflexivity. Qed.

(** C10, amended. On the read path, for a request that passes validation:
    when the cache misses and the synthetic computation resolves with the
    empty array (as it does when the two raw series share no timestamp), the
    handler first stores the empty array under the key and then fails on
    [latestCandle.close], [latestCandle] being [klines[-1]], that is
    [undefined]; the answer is the status-500 error, not the empty data set.
    When the cache already holds the empty array (an array is truthy, so this
    is a hit) the handler fails in the same way, without fetching and
    without storing. *)
Theorem api_klines_empty_series (env : Env) (query : KlinesQuery.t) (w : World) :
  truthy (KlinesQuery.coinA query) = true →
  truthy (KlinesQuery.coinB query) = true →
  KlinesQuery.coinA query ≠ KlinesQuery.coinB query →
  let coinA := default "" (KlinesQuery.coinA query) in
  let coinB := default "" (KlinesQuery.coinB query) in
  let interval := default "1h" (KlinesQuery.interval query) in
  let limit :=
    match KlinesQuery.limit query with
    | None => Some 500
    | Some limit => parseInt env limit
    end in
  let key := CacheManager.generateKey coinA coinB interval in
  let fetches :=
    [EvFetch (toUpperCase coinA +:+ "USDT") interval (Math_min_1000 limit);
     EvFetch (toUpperCase coinB +:+ "USDT") interval (Math_min_1000 limit)] in
  let response := (api_klines env query w).1 in
  let w' := (api_klines env query w).2 in
  match (CacheManager.get cloneKlines (cache w) coinA coinB interval (clock w)).1 with
  | Some klines =>
      klines = [] →
      response = Status500 (TypeError_undefined "close") ∧
      events w' = events w ++ [EvCacheGet key]
  | None =>
      ∀ delay,
        getSyntheticPair env (toUpperCase coinA) (toUpperCase coinB) interval limit
        = (delay, Resolved []) →
        response = Status500 (TypeError_undefined "close") ∧
        events w' = events w ++ [EvCacheGet key] ++ fetches
                      ++ [EvCacheSet key (CacheManager.getTTL interval)] ∧
        ∃ wrapped, NodeCache.data (cache w') !! key = Some wrapped ∧
                   NodeCache.v wrapped = []
  end.
Proof.
  intros HA HB Hne. destruct query as [coinA coinB interval limit].
  cbn [KlinesQuery.coinA KlinesQuery.coinB KlinesQuery.interval KlinesQuery.limit] in *.
  unfold api_klines.
  cbn [KlinesQuery.coinA KlinesQuery.coinB KlinesQuery.interval KlinesQuery.limit].
  rewrite HA, HB. cbn [negb orb].
  assert (String.eqb (default "" coinA) (default "" coinB) = false) as ->.
  { apply String.eqb_neq. intros Heq. apply Hne.
    by rewrite (truthy_default _ HA), (truthy_default _ HB), Heq. }
  unfold_handler.
  destruct (CacheManager.get cloneKlines (cache w) _ _ _ _) as [[klines|] c1].
  - cbn [fst]. intros ->. split; reflexivity.
  - cbn [fst]. intros delay Hsynth. rewrite Hsynth.
    cbn [cache clock events fst snd].
    destruct (CacheManager.set cloneKlines c1 _ _ _ [] _) as [success c2] eqn:Hset.
    cbn [cache clock events fst snd statistics].
    split; [reflexivity|]. split; [by rewrite <- !app_assoc|].
    assert (c2 = (CacheManager.set cloneKlines c1 (default "" coinA) (default "" coinB)
                    (default "1h" interval) [] (clock w + delay)).2) as ->
      by by rewrite Hset.
    eexists. split; [apply set_lookup|].
    unfold NodeCache.wrap, cloneKlines. cbn [NodeCache.v].
    by destruct (NodeCache.useClones _).
Qed.

(** A first request stores the empty array and fails; the next one finds it
    in the cache and fails again, without a fetch. *)
Lemma api_klines_empty_series_witness :
  ((api_klines env_disjoint query_BTC_ETH world0).1
   = Status500 (TypeError_undefined "close") ∧
   events (api_klines env_disjoint query_BTC_ETH world0).2
   = [EvCacheGet "BTC_ETH_1h"; EvFetch "BTCUSDT" "1h" (Some 500);
      EvFetch "ETHUSDT" "1h" (Some 500); EvCacheSet "BTC_ETH_1h" (JNum 1800)] ∧
   ∃ wrapped,
     NodeCache.data (cache (api_klines env_disjoint query_BTC_ETH world0).2)
       !! "BTC_ETH_1h" = Some wrapped ∧
     NodeCache.v wrapped = []) ∧
  let world1 := (api_klines env_disjoint query_BTC_ETH world0).2 in
  (api_klines env_disjoint query_BTC_ETH world1).1
  = Status500 (TypeError_undefined "close") ∧
  events (api_klines env_disjoint query_BTC_ETH world1).2
  = events world1 ++ [EvCacheGet "BTC_ETH_1h"].
Proof.
  split.
  - exact (api_klines_empty_series env_disjoint query_BTC_ETH world0
             eq_refl eq_refl ltac:(discriminate) 120 eq_refl).
  - exact (api_klines_empty_series env_disjoint query_BTC_ETH
             (api_klines env_disjoint query_BTC_ETH world0).2
             eq_refl eq_refl ltac:(discriminate) eq_refl).
Defined.

(** * Further properties of the code *)

(** ** [getKlines] *)

Lemma div_1000_lt (a b : Z) : a + 1000 ≤ b → a / 1000 < b / 1000.
Proof.
  intros Hab.
  assert (H : a / 1000 + 1 ≤ b / 1000).
  { replace (a / 1000 + 1) with ((a + 1 * 1000) / 1000) by (by rewrite Z.div_add).
    apply Z.div_le_mono; lia. }
  lia.
Qed.

(** X1. When the provider answers with rows whose open times, in
    milliseconds, each lie at least one second after the previous one,
    [getKlines] resolves, after the provider's delay, with one bar per row, in
    the rows' order, and the bars' timestamps in seconds are strictly
    increasing, hence pairwise distinct.  The provider is asked for
    [Math.min(limit, 1000)] bars. *)
Theorem getKlines_series (env : Env) (symbol interval : string) (limit : JSInt)
    (delay : Z) (rows : list Row) :
  axios_get env symbol interval (Math_min_1000 limit) = (delay, AxiosData rows) →
  Sorted (λ r r', k0 r + 1000 ≤ k0 r') rows →
  ∃ klines,
    getKlines env symbol interval limit = (delay, Resolved klines) ∧
    length klines = length rows ∧
    volume <$> klines = k5 <$> rows ∧
    Sorted Z.lt (time <$> klines) ∧
    NoDup (time <$> klines).
Proof.
  intros Haxios Hrows. exists (map rowToKline rows).
  assert (Hsorted : Sorted Z.lt (time <$> map rowToKline rows)).
  { change (map rowToKline rows) with (rowToKline <$> rows).
    rewrite <- list_fmap_compose.
    eapply Sorted_fmap; [|exact Hrows]. intros r r' Hr. by apply div_1000_lt. }
  split; [unfold getKlines; by rewrite Haxios|].
  split; [apply length_map|].
  split; [change (map rowToKline rows) with (rowToKline <$> rows);
          by rewrite <- list_fmap_compose|].
  split; [done | by apply Sorted_lt_NoDup].
Qed.

Lemma getKlines_series_witness :
  ∃ klines,
    getKlines env_overlap "BTCUSDT" "1h" (Some 5000) = (120, Resolved klines) ∧
    length klines = 3%nat ∧
    volume <$> klines = [10; 12; 9]%float ∧
    Sorted Z.lt (time <$> klines) ∧
    NoDup (time <$> klines).
Proof.
  apply (getKlines_series env_overlap "BTCUSDT" "1h" (Some 5000) 120
           [mkRow 100000 20000 20100 19900 20050 10;
            mkRow 200000 20050 20200 20000 20100 12;
            mkRow 300000 20100 20300 20050 20200 9]).
  - reflexivity.
  - repeat constructor; simpl; lia.
Defined.

(** ** [getSyntheticPair]: failures *)

(** X2. [getSyntheticPair] resolves exactly when both fetches resolve, and
    then with the series computed from their two arrays; when it rejects, its
    error is the error of one of the two fetches, unchanged.  It never
    resolves with a partial result. *)
Theorem getSyntheticPair_fail_fast (env : Env) (coinA coinB interval : string)
    (limit : JSInt) :
  let settledA := (getKlines env (coinA +:+ "USDT") interval limit).2 in
  let settledB := (getKlines env (coinB +:+ "USDT") interval limit).2 in
  let settled := (getSyntheticPair env coinA coinB interval limit).2 in
  (∀ klines,
     settled = Resolved klines ↔
     ∃ klinesA klinesB,
       settledA = Resolved klinesA ∧ settledB = Resolved klinesB ∧
       klines = syntheticKlines klinesA klinesB) ∧
  (∀ message,
     settled = Rejected message →
     settledA = Rejected message ∨ settledB = Rejected message).
Proof.
  unfold getSyntheticPair, Promise_all2.
  destruct (getKlines env (coinA +:+ "USDT") interval limit) as [dA [klinesA|eA]],
    (getKlines env (coinB +:+ "USDT") interval limit) as [dB [klinesB|eB]];
    cbn [fst snd].
  - split.
    + intros klines. split.
      * intros [= <-]. by exists klinesA, klinesB.
      * by intros (kA & kB & [= <-] & [= <-] & ->).
    + done.
  - split.
    + intros klines. split; [done | by intros (kA & kB & _ & ? & _)].
    + intros message [= <-]. by right.
  - split.
    + intros klines. split; [done | by intros (kA & kB & ? & _)].
    + intros message [= <-]. by left.
  - case_decide; cbn [snd]; (split;
      [intros klines; split; [done | by intros (kA & kB & ? & _)]
      |intros message [= <-]; first [by left | by right]]).
Qed.

Lemma getSyntheticPair_fail_fast_witness :
  (getKlines env_rate_limited "BTCUSDT" "1h" (Some 500)).2
  = Rejected "Rate limit exceeded. Please try again later." ∨
  (getKlines env_rate_limited "ETHUSDT" "1h" (Some 500)).2
  = Rejected "Rate limit exceeded. Please try again later.".
Proof.
  apply (proj2 (getSyntheticPair_fail_fast env_rate_limited "BTC" "ETH" "1h" (Some 500))).
  reflexivity.
Defined.

(** ** [getSyntheticPair]: how the two series are joined *)

Section JSMapAppend.
Context {V : Type}.

Lemma of_entries_app_get (entries entries' : list (Z * V)) (k : Z) :
  JSMap.get (JSMap.of_entries (entries ++ entries')) k
  = match JSMap.get (JSMap.of_entries entries') k with
    | Some v => Some v
    | None => JSMap.get (JSMap.of_entries entries) k
    end.
Proof.
  unfold JSMap.get.
  induction entries' as [|[k' v'] entries' IH] using rev_ind.
  - by rewrite app_nil_r.
  - rewrite app_assoc, !of_entries_snoc, !lookup_insert. simpl.
    case_decide; [done | exact IH].
Qed.

End JSMapAppend.

Lemma klinesBMapOf_last (before after : list Bar) (klineB : Bar) :
  time klineB ∉ time <$> after →
  JSMap.get (klinesBMapOf (before ++ klineB :: after)) (time klineB) = Some klineB.
Proof.
  intros Hlast. unfold klinesBMapOf.
  change (klineB :: after) with ([klineB] ++ after).
  rewrite !map_app, !of_entries_app_get.
  apply klinesBMapOf_None in Hlast. unfold klinesBMapOf in Hlast. rewrite Hlast.
  unfold JSMap.get, JSMap.of_entries. simpl. by rewrite lookup_insert_eq.
Qed.

(** X3. When series B has several bars with one timestamp, the divisor is
    the last of them: with [klineB] the last bar of series B at its
    timestamp, the bars of the result at that timestamp are exactly the
    quotients by [klineB] of the bars of series A at that timestamp. *)
Theorem syntheticKlines_last_duplicate (klinesA before after : list Bar)
    (klineB k : Bar) :
  time klineB ∉ time <$> after →
  time k = time klineB →
  (k ∈ syntheticKlines klinesA (before ++ klineB :: after) ↔
   ∃ klineA, klineA ∈ klinesA ∧ time klineA = time klineB ∧ k = ratioBar klineA klineB).
Proof.
  intros Hlast Hk. rewrite syntheticKlines_elem_of. split.
  - intros (klineA & klineB' & HA & Hget & ->). simpl in Hk.
    rewrite Hk, klinesBMapOf_last in Hget by done. injection Hget as <-.
    by exists klineA.
  - intros (klineA & HA & Ht & ->). exists klineA, klineB.
    split; [done|]. split; [|done]. rewrite Ht. by apply klinesBMapOf_last.
Qed.

Lemma syntheticKlines_last_duplicate_witness :
  bar 100 10 10 10 10 7
  ∈ syntheticKlines [bar 100 20 20 20 20 7]
      ([bar 100 4 4 4 4 1] ++ bar 100 2 2 2 2 1 :: [bar 200 5 5 5 5 1]) ↔
  ∃ klineA, klineA ∈ [bar 100 20 20 20 20 7] ∧ time klineA = 100 ∧
    bar 100 10 10 10 10 7 = ratioBar klineA (bar 100 2 2 2 2 1).
Proof.
  apply (syntheticKlines_last_duplicate [bar 100 20 20 20 20 7]
           [bar 100 4 4 4 4 1] [bar 200 5 5 5 5 1] (bar 100 2 2 2 2 1)
           (bar 100 10 10 10 10 7)).
  - simpl. intros Hin. apply list_elem_of_singleton in Hin. lia.
  - reflexivity.
Defined.

Lemma klinesBMapOf_Permutation (klinesB klinesB' : list Bar) (ts : Z) :
  NoDup (time <$> klinesB) → klinesB ≡ₚ klinesB' →
  JSMap.get (klinesBMapOf klinesB) ts = JSMap.get (klinesBMapOf klinesB') ts.
Proof.
  intros Hnd Hperm.
  assert (Hnd' : NoDup (time <$> klinesB')) by by rewrite <- Hperm.
  destruct (JSMap.get (klinesBMapOf klinesB) ts) as [klineB|] eqn:Hget.
  - apply klinesBMapOf_Some in Hget as [HB <-]. symmetry.
    apply klinesBMapOf_NoDup; [done | by rewrite <- Hperm].
  - symmetry. apply klinesBMapOf_None. rewrite <- Hperm.
    by apply klinesBMapOf_None.
Qed.

(** X4. The order of series B does not matter when its timestamps are
    pairwise distinct: any rearrangement of series B gives the same
    synthetic series, bar for bar. *)
Theorem syntheticKlines_order_of_B (klinesA klinesB klinesB' : list Bar) :
  NoDup (time <$> klinesB) → klinesB ≡ₚ klinesB' →
  syntheticKlines klinesA klinesB = syntheticKlines klinesA klinesB'.
Proof.
  intros Hnd Hperm. unfold syntheticKlines. f_equal.
  apply map_ext. intros klineA. unfold syntheticOrNull.
  by rewrite (klinesBMapOf_Permutation klinesB klinesB' _ Hnd Hperm).
Qed.

Lemma syntheticKlines_order_of_B_witness :
  syntheticKlines [bar 100 20 20 20 20 7; bar 200 30 30 30 30 8]
    [bar 100 4 4 4 4 1; bar 200 5 5 5 5 1]
  = syntheticKlines [bar 100 20 20 20 20 7; bar 200 30 30 30 30 8]
      [bar 200 5 5 5 5 1; bar 100 4 4 4 4 1].
Proof.
  apply syntheticKlines_order_of_B.
  - simpl. refine (bool_decide_unpack _ _). vm_compute. exact I.
  - apply perm_swap.
Defined.

(** X5. When every timestamp of series A is a timestamp of series B, no bar
    is dropped: the result has the timestamps and the volumes of series A,
    in order.  In particular a series paired with itself keeps all its
    timestamps. *)
Theorem syntheticKlines_keeps_all (klinesA klinesB : list Bar) :
  (time <$> klinesA) ⊆ (time <$> klinesB) →
  time <$> syntheticKlines klinesA klinesB = time <$> klinesA ∧
  volume <$> syntheticKlines klinesA klinesB = volume <$> klinesA ∧
  length (syntheticKlines klinesA klinesB) = length klinesA.
Proof.
  intros Hsub. rewrite syntheticKlines_omap.
  induction klinesA as [|klineA klinesA IH]; [done|].
  destruct IH as (IHt & IHv & IHl).
  { intros ts Hts. apply Hsub. rewrite fmap_cons. by apply elem_of_cons; right. }
  destruct (JSMap.get (klinesBMapOf klinesB) (time klineA)) as [klineB|] eqn:Hget.
  - assert (omap (syntheticOrNull (klinesBMapOf klinesB)) (klineA :: klinesA)
            = ratioBar klineA klineB
                :: omap (syntheticOrNull (klinesBMapOf klinesB)) klinesA) as ->.
    { simpl. unfold syntheticOrNull at 1. by rewrite Hget. }
    rewrite !fmap_cons, IHt, IHv. simpl. by rewrite IHl.
  - apply klinesBMapOf_None in Hget. destruct Hget. apply Hsub.
    rewrite fmap_cons. by apply elem_of_cons; left.
Qed.

Lemma syntheticKlines_keeps_all_witness :
  let klines := [bar 100 20 20 20 20 7; bar 200 30 30 30 30 8] in
  time <$> syntheticKlines klines klines = time <$> klines ∧
  volume <$> syntheticKlines klines klines = volume <$> klines ∧
  length (syntheticKlines klines klines) = length klines.
Proof.
  apply (syntheticKlines_keeps_all [bar 100 20 20 20 20 7; bar 200 30 30 30 30 8]
           [bar 100 20 20 20 20 7; bar 200 30 30 30 30 8]).
  done.
Defined.

(** ** Cache keys and TTLs *)

Lemma append_inj_r (a r r' : string) : a +:+ r = a +:+ r' → r = r'.
Proof. induction a as [|c a IH]; simpl; [done|]. intros [= Heq]. by apply IH. Qed.

Lemma generateKey_inj_symbols (coinA coinB interval coinA' coinB' interval' : string) :
  contains "_" coinA = false → contains "_" coinB = false →
  contains "_" coinA' = false → contains "_" coinB' = false →
  CacheManager.generateKey coinA coinB interval
  = CacheManager.generateKey coinA' coinB' interval' →
  coinA = coinA' ∧ coinB = coinB' ∧ interval = interval'.
Proof.
  intros HA HB HA' HB' Heq. unfold CacheManager.generateKey in Heq.
  assert (coinA = coinA') as <- by by apply (append_underscore_inj _ _ _ _ HA HA' Heq).
  apply append_inj_r in Heq. apply (append_inj_r "_") in Heq.
  assert (coinB = coinB') as <- by by apply (append_underscore_inj _ _ _ _ HB HB' Heq).
  apply append_inj_r in Heq. by apply (append_inj_r "_") in Heq as <-.
Qed.

(** X6. For symbols that do not contain the separator [_], the cache key
    determines the two symbols and the granularity: two requests share a key
    only when they agree on all three (the granularity may contain any
    character). *)
Theorem generateKey_injective (coinA coinB interval coinA' coinB' interval' : string) :
  contains "_" coinA = false → contains "_" coinB = false →
  contains "_" coinA' = false → contains "_" coinB' = false →
  (CacheManager.generateKey coinA coinB interval
   = CacheManager.generateKey coinA' coinB' interval'
   ↔ coinA = coinA' ∧ coinB = coinB' ∧ interval = interval').
Proof.
  intros HA HB HA' HB'. split.
  - by apply generateKey_inj_symbols.
  - by intros (-> & -> & ->).
Qed.

Lemma generateKey_injective_witness :
  CacheManager.generateKey "BTC" "ETH" "1_h" = CacheManager.generateKey "BTC" "ETH" "1_h"
  ↔ "BTC" = "BTC" ∧ "ETH" = "ETH" ∧ "1_h" = "1_h".
Proof.
  apply (generateKey_injective "BTC" "ETH" "1_h" "BTC" "ETH" "1_h"); reflexivity.
Defined.

(** X7. [getTTL] returns something that is not a number exactly for the
    names of the properties of [Object.prototype]; for every other string,
    in the table or not, it returns a number of seconds between one minute
    and 72 hours, never the [0] that would switch expiry off. *)
Theorem getTTL_numeric (interval : string) :
  (interval ∈ CacheManager.Object_prototype ↔
   CacheManager.getTTL interval = JInherited interval) ∧
  (interval ∉ CacheManager.Object_prototype →
   ∃ n, CacheManager.getTTL interval = JNum n ∧ 60 ≤ n ≤ 259200).
Proof.
  split; [split|].
  - unfold CacheManager.Object_prototype. intros Hin.
    repeat (apply elem_of_cons in Hin as [->|Hin]; [reflexivity|]).
    by apply elem_of_nil in Hin.
  - unfold CacheManager.getTTL, CacheManager.ttlMap_at.
    destruct (CacheManager.ownProperty _ _) as [m|]; [by destruct m|].
    by case_bool_decide.
  - intros Hproto. unfold CacheManager.getTTL, CacheManager.ttlMap_at.
    destruct (CacheManager.ownProperty _ _) as [m|] eqn:Hown.
    + apply ownProperty_ttlMap_range in Hown. exists m.
      split; [destruct m; [lia | done | done] | done].
    + rewrite bool_decide_eq_false_2 by done. exists 300. split; [done | lia].
Qed.

Lemma getTTL_numeric_witness :
  ∃ n, CacheManager.getTTL "90m" = JNum n ∧ 60 ≤ n ≤ 259200.
Proof.
  apply (proj2 (getTTL_numeric "90m")).
  refine (bool_decide_unpack _ _). vm_compute. exact I.
Defined.

(** ** The cache: delete, isolation of keys, expiry, bookkeeping *)

Section CacheFacts.
Context {V : Type}.
Variable clone : V → V.
Implicit Types (cache : NodeCache.Cache V) (data : V).

Lemma get_absent cache coinA coinB interval now :
  NodeCache.data cache !! CacheManager.generateKey coinA coinB interval = None →
  (CacheManager.get clone cache coinA coinB interval now).1 = None.
Proof. intros Hkey. unfold CacheManager.get, NodeCache.get. by rewrite Hkey. Qed.

(** X8. [delete] returns 1 when the store holds an entry for the key, expired
    or not, and 0 otherwise; after it a [get] with the same key misses at any
    time, and a second [delete] returns 0 and changes nothing. *)
Theorem delete_then_get cache coinA coinB interval now :
  let key := CacheManager.generateKey coinA coinB interval in
  let deleted := (CacheManager.delete cache coinA coinB interval).1 in
  let cache' := (CacheManager.delete cache coinA coinB interval).2 in
  (deleted = match NodeCache.data cache !! key with
             | Some _ => 1%nat
             | None => 0%nat
             end) ∧
  (CacheManager.get clone cache' coinA coinB interval now).1 = None ∧
  CacheManager.delete cache' coinA coinB interval = (0%nat, cache').
Proof.
  cbv zeta. pose proof (delete_lookup cache coinA coinB interval) as Hgone.
  split; [|split].
  - unfold CacheManager.delete, NodeCache.del. by destruct (NodeCache.data cache !! _).
  - by apply get_absent.
  - revert Hgone. generalize (CacheManager.delete cache coinA coinB interval).2.
    intros cache' Hgone. unfold CacheManager.delete, NodeCache.del. by rewrite Hgone.
Qed.

Lemma get_lookup_ne cache key key' now :
  key ≠ key' →
  NodeCache.data (NodeCache.get clone cache key now).2 !! key'
  = NodeCache.data cache !! key'.
Proof.
  intros Hne. unfold NodeCache.get, NodeCache.del.
  destruct (NodeCache.data cache !! key) as [w|] eqn:Hkey; [|done].
  destruct (NodeCache.expired w now); [|done].
  simpl. by apply lookup_delete_ne.
Qed.

Lemma get_options cache key now :
  NodeCache.options (NodeCache.get clone cache key now).2 = NodeCache.options cache.
Proof.
  unfold NodeCache.get, NodeCache.del.
  destruct (NodeCache.data cache !! key) as [w|]; [|done].
  by destruct (NodeCache.expired w now).
Qed.

(** X9. Keys do not interfere: whatever is stored, deleted or read under one
    key, a [get] under a different key returns what it returned before. *)
Theorem other_key_untouched cache coinA coinB interval data now
    coinA' coinB' interval' later :
  CacheManager.generateKey coinA coinB interval
  ≠ CacheManager.generateKey coinA' coinB' interval' →
  (CacheManager.get clone
     (CacheManager.set clone cache coinA coinB interval data now).2
     coinA' coinB' interval' later).1
  = (CacheManager.get clone cache coinA' coinB' interval' later).1 ∧
  (CacheManager.get clone
     (CacheManager.delete cache coinA coinB interval).2
     coinA' coinB' interval' later).1
  = (CacheManager.get clone cache coinA' coinB' interval' later).1 ∧
  (CacheManager.get clone
     (CacheManager.get clone cache coinA coinB interval now).2
     coinA' coinB' interval' later).1
  = (CacheManager.get clone cache coinA' coinB' interval' later).1.
Proof.
  intros Hne. split; [|split].
  - unfold CacheManager.get, CacheManager.set, NodeCache.get at 1, NodeCache.set.
    cbn [snd NodeCache.data NodeCache.options]. rewrite lookup_insert_ne by done.
    unfold NodeCache.get.
    destruct (NodeCache.data cache !! _) as [w|]; [|done].
    by destruct (NodeCache.expired w later).
  - unfold CacheManager.get, CacheManager.delete, NodeCache.del.
    destruct (NodeCache.data cache !! CacheManager.generateKey coinA coinB interval);
      [|done].
    unfold NodeCache.get. cbn [snd NodeCache.data NodeCache.options].
    rewrite lookup_delete_ne by done.
    destruct (NodeCache.data cache !! _) as [w'|]; [|done].
    by destruct (NodeCache.expired w' later).
  - unfold CacheManager.get.
    pose proof (get_lookup_ne cache _ _ now Hne) as Hother.
    pose proof (get_options cache (CacheManager.generateKey coinA coinB interval) now)
      as Hopts.
    revert Hother Hopts.
    generalize (NodeCache.get clone cache (CacheManager.generateKey coinA coinB interval) now).2.
    intros cache' Hother Hopts. unfold NodeCache.get, NodeCache.unwrap.
    rewrite Hother, Hopts.
    destruct (NodeCache.data cache !! _) as [w|]; [|done].
    by destruct (NodeCache.expired w later).
Qed.

(** X10. Expiry of an entry stored with a numeric TTL of [n] seconds at time
    [now] (in milliseconds): a [get] up to and including [now + 1000 n]
    returns an entry; a [get] later than that misses and removes the entry,
    so that it stays a miss even if the clock were put back. *)
Theorem entry_expires cache coinA coinB interval data now n later :
  CacheManager.getTTL interval = JNum n →
  let stored := (CacheManager.set clone cache coinA coinB interval data now).2 in
  (later ≤ now + 1000 * n →
   is_Some (CacheManager.get clone stored coinA coinB interval later).1) ∧
  (now + 1000 * n < later →
   (CacheManager.get clone stored coinA coinB interval later).1 = None ∧
   ∀ earlier,
     (CacheManager.get clone
        (CacheManager.get clone stored coinA coinB interval later).2
        coinA coinB interval earlier).1 = None).
Proof.
  intros Httl stored. pose proof (getTTL_at_least_60 _ _ Httl) as Hn.
  assert (Hexp : NodeCache.t (NodeCache.wrap clone cache data (JNum n) now)
                 = NodeCache.Until (now + n * 1000)).
  { unfold NodeCache.wrap, NodeCache.livetime. simpl. destruct n; [lia|done|lia]. }
  split.
  - intros Hlater. unfold CacheManager.get, NodeCache.get. subst stored.
    rewrite set_lookup, Httl. unfold NodeCache.expired. rewrite Hexp.
    rewrite bool_decide_eq_false_2 by lia. by eexists.
  - intros Hlater.
    assert (Hget : CacheManager.get clone stored coinA coinB interval later
                   = (None, let c' := (NodeCache.del stored
                                (CacheManager.generateKey coinA coinB interval)).2 in
                            NodeCache.mkCache (NodeCache.options c') (NodeCache.data c')
                              (NodeCache.mkStats (NodeCache.hits (NodeCache.stats c'))
                                 (S (NodeCache.misses (NodeCache.stats c')))
                                 (NodeCache.keys (NodeCache.stats c'))))).
    { unfold CacheManager.get, NodeCache.get. subst stored.
      rewrite set_lookup, Httl. unfold NodeCache.expired. rewrite Hexp.
      by rewrite bool_decide_eq_true_2 by lia. }
    rewrite !Hget. split; [done|].
    intros earlier. apply get_absent. cbn [snd NodeCache.data].
    apply (delete_lookup stored coinA coinB interval).
Qed.

Lemma calls_snoc (cs : list (CacheManager.Call V)) (c : CacheManager.Call V) :
  CacheManager.calls clone (cs ++ [c])
  = CacheManager.call clone (CacheManager.calls clone cs) c.
Proof. unfold CacheManager.calls. by rewrite foldl_snoc. Qed.

(** X11. Whatever sequence of [get], [set], [delete] and [flush] calls the
    cache singleton has served since it was constructed, its options are
    those it was constructed with (in particular [useClones] is off), and
    the number of keys reported by [getStats] is the number of entries in
    the store. *)
Theorem cache_bookkeeping (cs : list (CacheManager.Call V)) :
  let cache := CacheManager.calls clone cs in
  NodeCache.options cache = NodeCache.mkOptions 300 60 false ∧
  NodeCache.keys (CacheManager.getStats cache) = size (NodeCache.data cache).
Proof.
  induction cs as [|c cs [IHo IHk]] using rev_ind; [by split|].
  cbv zeta. rewrite calls_snoc. revert IHo IHk.
  generalize (CacheManager.calls clone cs). intros cache IHo IHk.
  unfold CacheManager.getStats, NodeCache.getStats in *.
  assert (Hdel : ∀ key,
            NodeCache.options (NodeCache.del cache key).2 = NodeCache.options cache ∧
            NodeCache.keys (NodeCache.stats (NodeCache.del cache key).2)
            = size (NodeCache.data (NodeCache.del cache key).2)).
  { intros key. unfold NodeCache.del.
    destruct (NodeCache.data cache !! key) as [w|] eqn:Hkey; [|done].
    cbn [snd NodeCache.options NodeCache.data NodeCache.stats NodeCache.keys].
    split; [done|]. rewrite IHk. by rewrite map_size_delete_Some by by eexists. }
  destruct c as [coinA coinB interval now|coinA coinB interval data now
                |coinA coinB interval|];
    unfold CacheManager.call, CacheManager.get, CacheManager.set, CacheManager.delete,
      CacheManager.flush.
  - unfold NodeCache.get.
    destruct (NodeCache.data cache !! _) as [w|] eqn:Hkey; [|done].
    destruct (NodeCache.expired w now); [|done].
    cbn [snd NodeCache.options NodeCache.data NodeCache.stats NodeCache.keys].
    destruct (Hdel (CacheManager.generateKey coinA coinB interval)) as [-> ->]. done.
  - unfold NodeCache.set.
    cbn [snd NodeCache.options NodeCache.data NodeCache.stats NodeCache.keys].
    split; [done|]. case_bool_decide as Hkey.
    + rewrite IHk. by rewrite map_size_insert_Some.
    + rewrite IHk. rewrite map_size_insert_None; [done|].
      by apply eq_None_not_Some.
  - destruct (Hdel (CacheManager.generateKey coinA coinB interval)) as [-> ->]. done.
  - unfold NodeCache.flushAll.
    cbn [NodeCache.options NodeCache.data NodeCache.stats NodeCache.keys].
    split; [done|]. by rewrite map_size_empty.
Qed.

End CacheFacts.

Lemma other_key_untouched_witness :
  (CacheManager.get S
     (CacheManager.set S CacheManager.constructor "BTC" "ETH" "1h" 7%nat 1000).2
     "ETH" "BTC" "1h" 2000).1
  = (CacheManager.get S CacheManager.constructor "ETH" "BTC" "1h" 2000).1.
Proof.
  apply (other_key_untouched S CacheManager.constructor "BTC" "ETH" "1h" 7%nat 1000
           "ETH" "BTC" "1h" 2000).
  discriminate.
Defined.

Lemma entry_expires_witness :
  is_Some (CacheManager.get S
             (CacheManager.set S CacheManager.constructor "BTC" "ETH" "1m" 7%nat 1000).2
             "BTC" "ETH" "1m" 61000).1 ∧
  (CacheManager.get S
     (CacheManager.set S CacheManager.constructor "BTC" "ETH" "1m" 7%nat 1000).2
     "BTC" "ETH" "1m" 61001).1 = None.
Proof.
  split.
  - apply (proj1 (entry_expires S CacheManager.constructor "BTC" "ETH" "1m" 7%nat
                    1000 60 61000 eq_refl)). lia.
  - apply (proj2 (entry_expires S CacheManager.constructor "BTC" "ETH" "1m" 7%nat
                    1000 60 61001 eq_refl)). lia.
Defined.

(** ** The read path: hits, failures, repeated requests *)

Lemma statistics_nonempty (env : Env) (klines : list Bar) (w : World) :
  klines ≠ [] →
  ∃ latestCandle firstCandle stats,
    last klines = Some latestCandle ∧ head klines = Some firstCandle ∧
    statistics env klines w = (Resolved stats, w) ∧
    currentPrice stats = close latestCandle ∧
    openPrice stats = open firstCandle ∧
    timestamp stats = time latestCandle.
Proof.
  intros Hne. unfold statistics, at_index.
  destruct klines as [|firstCandle klines]; [done|].
  destruct (last (firstCandle :: klines)) as [latestCandle|] eqn:Hlast;
    [|by apply last_None in Hlast].
  rewrite decide_False by (simpl; lia). rewrite decide_False by lia.
  replace (Z.to_nat (Z.of_nat (length (firstCandle :: klines)) - 1))
    with (pred (length (firstCandle :: klines))) by (simpl; lia).
  rewrite <- last_lookup, Hlast. simpl.
  eexists latestCandle, firstCandle, _. by repeat split.
Qed.

(** X12. A hit on the read path: when the cache holds a non-empty series for
    the key, the handler answers with that series, its length as [count],
    the close of its last bar as current price, the open of its first bar as
    open price and the time of its last bar as timestamp.  The provider is
    not asked, and the entries and the clock are as before. *)
Theorem api_klines_hit (env : Env) (query : KlinesQuery.t) (w : World)
    (klines : list Bar) :
  truthy (KlinesQuery.coinA query) = true →
  truthy (KlinesQuery.coinB query) = true →
  KlinesQuery.coinA query ≠ KlinesQuery.coinB query →
  let coinA := default "" (KlinesQuery.coinA query) in
  let coinB := default "" (KlinesQuery.coinB query) in
  let interval := default "1h" (KlinesQuery.interval query) in
  (CacheManager.get cloneKlines (cache w) coinA coinB interval (clock w)).1
  = Some klines →
  klines ≠ [] →
  ∃ latestCandle firstCandle stats,
    last klines = Some latestCandle ∧ head klines = Some firstCandle ∧
    (api_klines env query w).1
    = KlinesJson (coinA +:+ "/" +:+ coinB) interval (length klines) klines stats ∧
    currentPrice stats = close latestCandle ∧
    openPrice stats = open firstCandle ∧
    timestamp stats = time latestCandle ∧
    events (api_klines env query w).2
    = events w ++ [EvCacheGet (CacheManager.generateKey coinA coinB interval)] ∧
    NodeCache.data (cache (api_klines env query w).2) = NodeCache.data (cache w) ∧
    clock (api_klines env query w).2 = clock w.
Proof.
  intros HA HB Hne. destruct query as [coinA coinB interval limit].
  cbn [KlinesQuery.coinA KlinesQuery.coinB KlinesQuery.interval KlinesQuery.limit] in *.
  intros Hhit Hklines. unfold api_klines.
  cbn [KlinesQuery.coinA KlinesQuery.coinB KlinesQuery.interval KlinesQuery.limit].
  rewrite HA, HB. cbn [negb orb].
  assert (String.eqb (default "" coinA) (default "" coinB) = false) as ->.
  { apply String.eqb_neq. intros Heq. apply Hne.
    by rewrite (truthy_default _ HA), (truthy_default _ HB), Heq. }
  unfold try_catch, bind, cache_get, ret, log.
  assert (Hdata : NodeCache.data
            (CacheManager.get cloneKlines (cache w) (default "" coinA)
               (default "" coinB) (default "1h" interval) (clock w)).2
          = NodeCache.data (cache w)).
  { revert Hhit. unfold CacheManager.get, NodeCache.get.
    destruct (NodeCache.data (cache w) !! _) as [wrapped|]; [|done].
    by destruct (NodeCache.expired wrapped (clock w)). }
  destruct (CacheManager.get cloneKlines (cache w) _ _ _ _) as [cached c1].
  cbn [fst snd] in Hhit, Hdata. subst cached.
  destruct (statistics_nonempty env klines
              (mkWorld c1 (clock w)
                 (events w ++ [EvCacheGet (CacheManager.generateKey (default "" coinA)
                                             (default "" coinB) (default "1h" interval))]))
              Hklines)
    as (latestCandle & firstCandle & stats & Hlast & Hhead & Hstats & H1 & H2 & H3).
  cbn [cache clock events]. rewrite Hstats.
  exists latestCandle, firstCandle, stats. by repeat split.
Qed.

Lemma api_klines_witness_hit_world :
  (CacheManager.get cloneKlines
     (cache (api_klines env_overlap query_BTC_ETH world0).2)
     "BTC" "ETH" "1h" (clock (api_klines env_overlap query_BTC_ETH world0).2)).1
  = Some [bar 100 10 10 10 10 10; bar 300 (20100 / 2005) (20300 / 2020)
            (20050 / 2000) (20200 / 2010) 9].
Proof. vm_compute. reflexivity. Qed.

Lemma api_klines_hit_witness :
  let world1 := (api_klines env_overlap query_BTC_ETH world0).2 in
  ∃ latestCandle firstCandle stats,
    last [bar 100 10 10 10 10 10; bar 300 (20100 / 2005) (20300 / 2020)
            (20050 / 2000) (20200 / 2010) 9] = Some latestCandle ∧
    head [bar 100 10 10 10 10 10; bar 300 (20100 / 2005) (20300 / 2020)
            (20050 / 2000) (20200 / 2010) 9] = Some firstCandle ∧
    (api_klines env_rate_limited query_BTC_ETH world1).1
    = KlinesJson "BTC/ETH" "1h" 2
        [bar 100 10 10 10 10 10; bar 300 (20100 / 2005) (20300 / 2020)
           (20050 / 2000) (20200 / 2010) 9] stats ∧
    currentPrice stats = close latestCandle ∧
    openPrice stats = open firstCandle ∧
    timestamp stats = time latestCandle ∧
    events (api_klines env_rate_limited query_BTC_ETH world1).2
    = events world1 ++ [EvCacheGet "BTC_ETH_1h"] ∧
    NodeCache.data (cache (api_klines env_rate_limited query_BTC_ETH world1).2)
    = NodeCache.data (cache world1) ∧
    clock (api_klines env_rate_limited query_BTC_ETH world1).2 = clock world1.
Proof.
  exact (api_klines_hit env_rate_limited query_BTC_ETH
           (api_klines env_overlap query_BTC_ETH world0).2
           [bar 100 10 10 10 10 10; bar 300 (20100 / 2005) (20300 / 2020)
              (20050 / 2000) (20200 / 2010) 9]
           eq_refl eq_refl ltac:(discriminate) api_klines_witness_hit_world
           ltac:(discriminate)).
Defined.

Section ReadPath.
Variables (env : Env) (query : KlinesQuery.t) (w : World).
Hypothesis HA : truthy (KlinesQuery.coinA query) = true.
Hypothesis HB : truthy (KlinesQuery.coinB query) = true.
Hypothesis Hne : KlinesQuery.coinA query ≠ KlinesQuery.coinB query.

#[local] Abbreviation coinA := (default "" (KlinesQuery.coinA query)).
#[local] Abbreviation coinB := (default "" (KlinesQuery.coinB query)).
#[local] Abbreviation interval := (default "1h" (KlinesQuery.interval query)).
#[local] Abbreviation limit :=
  (match KlinesQuery.limit query with
   | None => Some 500
   | Some limit => parseInt env limit
   end).
#[local] Abbreviation key := (CacheManager.generateKey coinA coinB interval).

Lemma coins_differ : String.eqb coinA coinB = false.
Proof.
  apply String.eqb_neq. intros Heq. apply Hne.
  rewrite (truthy_default _ HA), (truthy_default _ HB). by f_equal.
Qed.

Lemma api_klines_on_hit (klines : list Bar) (c1 : NodeCache.Cache (list Bar)) :
  CacheManager.get cloneKlines (cache w) coinA coinB interval (clock w)
  = (Some klines, c1) →
  api_klines env query w
  = answer_with env coinA coinB interval klines
      (mkWorld c1 (clock w) (events w ++ [EvCacheGet key])).
Proof.
  intros Hget. unfold api_klines, answer_with.
  rewrite HA, HB. cbn [negb orb]. rewrite coins_differ.
  unfold_handler. rewrite Hget. reflexivity.
Qed.

Lemma api_klines_on_miss (c1 : NodeCache.Cache (list Bar)) :
  CacheManager.get cloneKlines (cache w) coinA coinB interval (clock w) = (None, c1) →
  api_klines env query w
  = match getSyntheticPair env (toUpperCase coinA) (toUpperCase coinB) interval limit with
    | (delay, Resolved klines) =>
        answer_with env coinA coinB interval klines
          (mkWorld
             (CacheManager.set cloneKlines c1 coinA coinB interval klines
                (clock w + delay)).2
             (clock w + delay)
             (events w ++ [EvCacheGet key]
                ++ [EvFetch (toUpperCase coinA +:+ "USDT") interval (Math_min_1000 limit);
                    EvFetch (toUpperCase coinB +:+ "USDT") interval (Math_min_1000 limit)]
                ++ [EvCacheSet key (CacheManager.getTTL interval)]))
    | (delay, Rejected message) =>
        (Status500 message,
         mkWorld c1 (clock w + delay)
           (events w ++ [EvCacheGet key]
              ++ [EvFetch (toUpperCase coinA +:+ "USDT") interval (Math_min_1000 limit);
                  EvFetch (toUpperCase coinB +:+ "USDT") interval (Math_min_1000 limit)]))
    end.
Proof.
  intros Hget. unfold api_klines, answer_with.
  rewrite HA, HB. cbn [negb orb]. rewrite coins_differ.
  unfold_handler. rewrite Hget. cbn [cache clock events].
  destruct (getSyntheticPair env _ _ _ _) as [delay [klines|message]].
  - cbn [cache clock events].
    destruct (CacheManager.set cloneKlines c1 _ _ _ _ _) as [success c2].
    cbn [cache clock events snd]. by rewrite <- !app_assoc.
  - cbn [cache clock events]. by rewrite <- !app_assoc.
Qed.

End ReadPath.

Lemma get_miss_absent {V : Type} (clone : V → V) (c c1 : NodeCache.Cache V)
    coinA coinB interval now :
  CacheManager.get clone c coinA coinB interval now = (None, c1) →
  NodeCache.data c1 !! CacheManager.generateKey coinA coinB interval = None.
Proof.
  unfold CacheManager.get, NodeCache.get.
  destruct (NodeCache.data c !! _) as [w|] eqn:Hkey.
  - destruct (NodeCache.expired w now); [|done]. intros [= <-].
    cbn [NodeCache.data]. apply (delete_lookup c coinA coinB interval).
  - by intros [= <-].
Qed.

Lemma hit_after_set (c : NodeCache.Cache (list Bar)) coinA coinB interval
    (klines : list Bar) now later :
  later ≤ now + 60000 →
  ∃ c',
    CacheManager.get cloneKlines
      (CacheManager.set cloneKlines c coinA coinB interval klines now).2
      coinA coinB interval later
    = (Some klines, c').
Proof.
  intros Hlater. unfold CacheManager.get, NodeCache.get.
  rewrite set_lookup, wrap_not_expired by done.
  eexists. f_equal. unfold NodeCache.unwrap, NodeCache.wrap, cloneKlines.
  cbn [NodeCache.v]. by repeat destruct (NodeCache.useClones _).
Qed.

Lemma answer_with_nonempty (env : Env) coinA coinB interval (klines : list Bar)
    (w : World) :
  klines ≠ [] →
  ∃ stats,
    (∀ w0, statistics env klines w0 = (Resolved stats, w0)) ∧
    answer_with env coinA coinB interval klines w
    = (KlinesJson (coinA +:+ "/" +:+ coinB) interval (length klines) klines stats, w).
Proof.
  intros Hne.
  destruct (statistics_nonempty env klines w Hne)
    as (latest & first & stats & _ & _ & Hstats & _).
  exists stats. split.
  - intros w0.
    destruct (statistics_nonempty env klines w0 Hne)
      as (latest0 & first0 & stats0 & _ & _ & Hstats0 & _).
    rewrite Hstats0. f_equal. f_equal.
    revert Hstats Hstats0. unfold statistics.
    destruct (at_index klines _), (at_index klines 0); unfold throw, ret; congruence.
  - unfold answer_with, try_catch, bind, ret. by rewrite Hstats.
Qed.

Lemma statistics_toFixed2 (env env' : Env) (klines : list Bar) :
  toFixed2 env' = toFixed2 env → statistics env' klines = statistics env klines.
Proof. intros Heq. unfold statistics. by rewrite Heq. Qed.

(** X13. A failure is not cached: when the read path misses the cache and
    the synthetic computation rejects, the handler answers with status 500
    and the error's message, after having asked the provider for both
    symbols, and the cache holds no entry for the key afterwards. *)
Theorem api_klines_failure_not_cached (env : Env) (query : KlinesQuery.t) (w : World)
    (delay : Z) (message : string) :
  truthy (KlinesQuery.coinA query) = true →
  truthy (KlinesQuery.coinB query) = true →
  KlinesQuery.coinA query ≠ KlinesQuery.coinB query →
  let coinA := default "" (KlinesQuery.coinA query) in
  let coinB := default "" (KlinesQuery.coinB query) in
  let interval := default "1h" (KlinesQuery.interval query) in
  let limit :=
    match KlinesQuery.limit query with
    | None => Some 500
    | Some limit => parseInt env limit
    end in
  let key := CacheManager.generateKey coinA coinB interval in
  (CacheManager.get cloneKlines (cache w) coinA coinB interval (clock w)).1 = None →
  getSyntheticPair env (toUpperCase coinA) (toUpperCase coinB) interval limit
  = (delay, Rejected message) →
  (api_klines env query w).1 = Status500 message ∧
  events (api_klines env query w).2
  = events w ++ [EvCacheGet key]
      ++ [EvFetch (toUpperCase coinA +:+ "USDT") interval (Math_min_1000 limit);
          EvFetch (toUpperCase coinB +:+ "USDT") interval (Math_min_1000 limit)] ∧
  NodeCache.data (cache (api_klines env query w).2) !! key = None.
Proof.
  intros HA HB Hne coinA coinB interval limit key Hmiss Hsynth.
  destruct (CacheManager.get cloneKlines (cache w) coinA coinB interval (clock w))
    as [cached c1] eqn:Hget.
  cbn [fst] in Hmiss. subst cached.
  rewrite (api_klines_on_miss env query w HA HB Hne c1 Hget).
  fold coinA coinB interval limit. rewrite Hsynth. cbn [fst snd cache events].
  split; [done|]. split; [done|]. by apply get_miss_absent in Hget.
Qed.

Lemma api_klines_failure_not_cached_witness :
  (api_klines env_rate_limited query_BTC_ETH world0).1
  = Status500 "Rate limit exceeded. Please try again later." ∧
  events (api_klines env_rate_limited query_BTC_ETH world0).2
  = [EvCacheGet "BTC_ETH_1h"; EvFetch "BTCUSDT" "1h" (Some 500);
     EvFetch "ETHUSDT" "1h" (Some 500)] ∧
  NodeCache.data (cache (api_klines env_rate_limited query_BTC_ETH world0).2)
    !! "BTC_ETH_1h" = None.
Proof.
  exact (api_klines_failure_not_cached env_rate_limited query_BTC_ETH world0 30
           "Rate limit exceeded. Please try again later."
           eq_refl eq_refl ltac:(discriminate) eq_refl eq_refl).
Defined.

(** X14. A repeated request is served from the cache: after a miss whose
    computation resolved with a non-empty series, the same request made
    again within a minute gets the same answer, and the only thing the
    handler does is read the cache, whatever the provider would answer by
    then. *)
Theorem api_klines_repeat (env env' : Env) (query : KlinesQuery.t) (w : World)
    (delay elapsed : Z) (klines : list Bar) :
  truthy (KlinesQuery.coinA query) = true →
  truthy (KlinesQuery.coinB query) = true →
  KlinesQuery.coinA query ≠ KlinesQuery.coinB query →
  let coinA := default "" (KlinesQuery.coinA query) in
  let coinB := default "" (KlinesQuery.coinB query) in
  let interval := default "1h" (KlinesQuery.interval query) in
  let limit :=
    match KlinesQuery.limit query with
    | None => Some 500
    | Some limit => parseInt env limit
    end in
  (CacheManager.get cloneKlines (cache w) coinA coinB interval (clock w)).1 = None →
  getSyntheticPair env (toUpperCase coinA) (toUpperCase coinB) interval limit
  = (delay, Resolved klines) →
  klines ≠ [] →
  elapsed ≤ 60000 →
  toFixed2 env' = toFixed2 env →
  let w1 := (api_klines env query w).2 in
  let later := mkWorld (cache w1) (clock w1 + elapsed) (events w1) in
  (∃ stats,
     (api_klines env query w).1
     = KlinesJson (coinA +:+ "/" +:+ coinB) interval (length klines) klines stats) ∧
  (api_klines env' query later).1 = (api_klines env query w).1 ∧
  events (api_klines env' query later).2
  = events w1 ++ [EvCacheGet (CacheManager.generateKey coinA coinB interval)].
Proof.
  intros HA HB Hne coinA coinB interval limit Hmiss Hsynth Hklines Helapsed Henv.
  destruct (CacheManager.get cloneKlines (cache w) coinA coinB interval (clock w))
    as [cached c1] eqn:Hget.
  cbn [fst] in Hmiss. subst cached.
  rewrite (api_klines_on_miss env query w HA HB Hne c1 Hget).
  fold coinA coinB interval limit. rewrite Hsynth.
  destruct (answer_with_nonempty env coinA coinB interval klines
              (mkWorld
                 (CacheManager.set cloneKlines c1 coinA coinB interval klines
                    (clock w + delay)).2
                 (clock w + delay)
                 (events w ++ [EvCacheGet (CacheManager.generateKey coinA coinB interval)]
                    ++ [EvFetch (toUpperCase coinA +:+ "USDT") interval (Math_min_1000 limit);
                        EvFetch (toUpperCase coinB +:+ "USDT") interval (Math_min_1000 limit)]
                    ++ [EvCacheSet (CacheManager.generateKey coinA coinB interval)
                          (CacheManager.getTTL interval)]))
              Hklines) as (stats & Hstats & ->).
  cbn [fst snd cache clock events].
  split; [by exists stats|].
  destruct (hit_after_set c1 coinA coinB interval klines (clock w + delay)
              (clock w + delay + elapsed)) as [c2 Hhit]; [lia|].
  erewrite (api_klines_on_hit env' query _ HA HB Hne klines c2); [|exact Hhit].
  fold coinA coinB interval.
  unfold answer_with, try_catch, bind, ret.
  rewrite (statistics_toFixed2 env env' klines Henv), Hstats.
  cbn [fst snd cache clock events]. by split.
Qed.

Lemma api_klines_repeat_witness :
  let w1 := (api_klines env_overlap query_BTC_ETH world0).2 in
  let later := mkWorld (cache w1) (clock w1 + 59000) (events w1) in
  (∃ stats,
     (api_klines env_overlap query_BTC_ETH world0).1
     = KlinesJson "BTC/ETH" "1h" 2
         [bar 100 10 10 10 10 10; bar 300 (20100 / 2005) (20300 / 2020)
            (20050 / 2000) (20200 / 2010) 9] stats) ∧
  (api_klines env_rate_limited query_BTC_ETH later).1
  = (api_klines env_overlap query_BTC_ETH world0).1 ∧
  events (api_klines env_rate_limited query_BTC_ETH later).2
  = events w1 ++ [EvCacheGet "BTC_ETH_1h"].
Proof.
  exact (api_klines_repeat env_overlap env_rate_limited query_BTC_ETH world0 120 59000
           [bar 100 10 10 10 10 10; bar 300 (20100 / 2005) (20300 / 2020)
              (20050 / 2000) (20200 / 2010) 9]
           eq_refl eq_refl ltac:(discriminate) eq_refl eq_refl ltac:(discriminate)
           ltac:(lia) eq_refl).
Defined.

(** ** Force refresh followed by a read *)

Lemma api_refresh_on_resolved (env : Env) (body : RefreshBody.t) (w : World)
    (delay : Z) (klines : list Bar) :
  truthy (RefreshBody.coinA body) = true →
  truthy (RefreshBody.coinB body) = true →
  let coinA := default "" (RefreshBody.coinA body) in
  let coinB := default "" (RefreshBody.coinB body) in
  let interval := default "1h" (RefreshBody.interval body) in
  let key := CacheManager.generateKey coinA coinB interval in
  getSyntheticPair env (toUpperCase coinA) (toUpperCase coinB) interval (Some 500)
  = (delay, Resolved klines) →
  api_refresh env body w
  = (RefreshJson "Cache refreshed" (coinA +:+ "/" +:+ coinB) (length klines),
     mkWorld
       (CacheManager.set cloneKlines
          (CacheManager.delete (cache w) coinA coinB interval).2
          coinA coinB interval klines (clock w + delay)).2
       (clock w + delay)
       (events w ++ [EvCacheDelete key]
          ++ [EvFetch (toUpperCase coinA +:+ "USDT") interval (Some 500);
              EvFetch (toUpperCase coinB +:+ "USDT") interval (Some 500)]
          ++ [EvCacheSet key (CacheManager.getTTL interval)])).
Proof.
  intros HA HB coinA coinB interval key Hsynth.
  unfold api_refresh. fold coinA coinB interval. rewrite HA, HB. cbn [negb orb].
  unfold_handler.
  destruct (CacheManager.delete (cache w) coinA coinB interval) as [deleted c1].
  cbn [cache clock events snd]. rewrite Hsynth. cbn [cache clock events].
  destruct (CacheManager.set cloneKlines c1 _ _ _ _ _) as [success c2].
  cbn [cache clock events snd]. by rewrite <- !app_assoc.
Qed.

(** X15. A read that follows a force refresh of the same pair and
    granularity within a minute is served from the refreshed entry: it
    answers with the series the refresh computed (when that series is not
    empty) and does not ask the provider again, so the two requests together
    cost exactly the two fetches of the refresh. *)
Theorem refresh_then_read (env env' : Env) (body : RefreshBody.t)
    (query : KlinesQuery.t) (w : World) (delay elapsed : Z) (klines : list Bar) :
  truthy (RefreshBody.coinA body) = true →
  truthy (RefreshBody.coinB body) = true →
  RefreshBody.coinA body ≠ RefreshBody.coinB body →
  KlinesQuery.coinA query = RefreshBody.coinA body →
  KlinesQuery.coinB query = RefreshBody.coinB body →
  default "1h" (KlinesQuery.interval query) = default "1h" (RefreshBody.interval body) →
  let coinA := default "" (RefreshBody.coinA body) in
  let coinB := default "" (RefreshBody.coinB body) in
  let interval := default "1h" (RefreshBody.interval body) in
  let key := CacheManager.generateKey coinA coinB interval in
  getSyntheticPair env (toUpperCase coinA) (toUpperCase coinB) interval (Some 500)
  = (delay, Resolved klines) →
  klines ≠ [] →
  elapsed ≤ 60000 →
  let w1 := (api_refresh env body w).2 in
  let later := mkWorld (cache w1) (clock w1 + elapsed) (events w1) in
  ∃ stats,
    (api_klines env' query later).1
    = KlinesJson (coinA +:+ "/" +:+ coinB) interval (length klines) klines stats ∧
    events (api_klines env' query later).2
    = events w ++ [EvCacheDelete key]
        ++ [EvFetch (toUpperCase coinA +:+ "USDT") interval (Some 500);
            EvFetch (toUpperCase coinB +:+ "USDT") interval (Some 500)]
        ++ [EvCacheSet key (CacheManager.getTTL interval)]
        ++ [EvCacheGet key].
Proof.
  intros HA HB Hne HqA HqB Hqi coinA coinB interval key Hsynth Hklines Helapsed.
  rewrite (api_refresh_on_resolved env body w delay klines HA HB Hsynth).
  fold coinA coinB interval key. cbn [snd cache clock events].
  destruct (hit_after_set (CacheManager.delete (cache w) coinA coinB interval).2
              coinA coinB interval klines (clock w + delay)
              (clock w + delay + elapsed)) as [c2 Hhit]; [lia|].
  assert (HA' : truthy (KlinesQuery.coinA query) = true) by by rewrite HqA.
  assert (HB' : truthy (KlinesQuery.coinB query) = true) by by rewrite HqB.
  assert (Hne' : KlinesQuery.coinA query ≠ KlinesQuery.coinB query)
    by by rewrite HqA, HqB.
  erewrite (api_klines_on_hit env' query _ HA' HB' Hne' klines c2);
    [|rewrite HqA, HqB, Hqi; exact Hhit].
  rewrite HqA, HqB, Hqi. fold coinA coinB interval key.
  destruct (answer_with_nonempty env' coinA coinB interval klines
              (mkWorld c2 (clock w + delay + elapsed)
                 ((events w ++ [EvCacheDelete key]
                     ++ [EvFetch (toUpperCase coinA +:+ "USDT") interval (Some 500);
                         EvFetch (toUpperCase coinB +:+ "USDT") interval (Some 500)]
                     ++ [EvCacheSet key (CacheManager.getTTL interval)])
                    ++ [EvCacheGet key]))
              Hklines) as (stats & _ & Hanswer).
  cbn [cache clock events]. rewrite Hanswer. exists stats.
  cbn [fst snd events]. split; [done|]. by rewrite <- !app_assoc.
Qed.

Lemma refresh_then_read_witness :
  let w1 := (api_refresh env_overlap body_BTC_ETH world0).2 in
  let later := mkWorld (cache w1) (clock w1 + 1000) (events w1) in
  ∃ stats,
    (api_klines env_rate_limited query_BTC_ETH later).1
    = KlinesJson "BTC/ETH" "1h" 2
        [bar 100 10 10 10 10 10; bar 300 (20100 / 2005) (20300 / 2020)
           (20050 / 2000) (20200 / 2010) 9] stats ∧
    events (api_klines env_rate_limited query_BTC_ETH later).2
    = [EvCacheDelete "BTC_ETH_1h"; EvFetch "BTCUSDT" "1h" (Some 500);
       EvFetch "ETHUSDT" "1h" (Some 500); EvCacheSet "BTC_ETH_1h" (JNum 1800);
       EvCacheGet "BTC_ETH_1h"].
Proof.
  exact (refresh_then_read env_overlap env_rate_limited body_BTC_ETH query_BTC_ETH
           world0 120 1000
           [bar 100 10 10 10 10 10; bar 300 (20100 / 2005) (20300 / 2020)
              (20050 / 2000) (20200 / 2010) 9]
           eq_refl eq_refl ltac:(discriminate) eq_refl eq_refl eq_refl eq_refl
           ltac:(discriminate) ltac:(lia)).
Defined.

(** ** The list of coins *)

Lemma list_ascii_of_string_app (s1 s2 : string) :
  list_ascii_of_string (s1 +:+ s2) = list_ascii_of_string s1 ++ list_ascii_of_string s2.
Proof. induction s1 as [|c s1 IH]; simpl; [done | by rewrite IH]. Qed.

Lemma endsWith_spec (s suffix : string) :
  endsWith s suffix = true ↔ ∃ start, s = start +:+ suffix.
Proof.
  unfold endsWith. rewrite bool_decide_eq_true. split.
  - intros [k Hk]. exists (string_of_list_ascii k).
    rewrite <- (string_of_list_ascii_of_string s), Hk.
    rewrite <- (string_of_list_ascii_of_string (_ +:+ _)), list_ascii_of_string_app.
    by rewrite list_ascii_of_string_of_list_ascii.
  - intros [start ->]. exists (list_ascii_of_string start).
    apply list_ascii_of_string_app.
Qed.

Lemma Set_values_spec (values : list string) :
  NoDup (Set_values values) ∧ ∀ x, x ∈ Set_values values ↔ x ∈ values.
Proof.
  unfold Set_values. induction values as [|v values [IHnd IHin]] using rev_ind.
  - split; [constructor | done].
  - rewrite foldl_snoc. case_bool_decide as Hseen.
    + split; [done|]. intros x. rewrite elem_of_app, list_elem_of_singleton, IHin.
      split; [by left|]. intros [Hx| ->]; [done | by apply IHin].
    + split.
      * apply NoDup_app. split; [done|]. split; [|apply NoDup_singleton].
        intros x Hx ->%list_elem_of_singleton. done.
      * intros x. by rewrite !elem_of_app, IHin.
Qed.

Global Instance string_le_total : Total string_le.
Proof. intros s1 s2. apply String.leb_total. Qed.

(** X16. When the provider answers, [/api/symbols] lists, in ascending
    order and with their number as [count], exactly [USDT] and the base
    assets of the pairs whose symbol ends in [USDT] and whose status is
    [TRADING].  The list has no repetition unless one of those pairs has
    [USDT] itself as base asset. *)
Theorem api_symbols_coins (symbols : list ExchangeInfo.Symbol) :
  ∃ coins,
    api_symbols (ExchangeInfo.Data symbols) = SymbolsJson (length coins) coins ∧
    Sorted string_le coins ∧
    (∀ coin, coin ∈ coins ↔
       coin = "USDT" ∨
       ∃ s start, s ∈ symbols ∧ ExchangeInfo.symbol s = start +:+ "USDT" ∧
         ExchangeInfo.status s = "TRADING" ∧ ExchangeInfo.baseAsset s = coin) ∧
    (NoDup coins ↔
     ¬ ∃ s start, s ∈ symbols ∧ ExchangeInfo.symbol s = start +:+ "USDT" ∧
         ExchangeInfo.status s = "TRADING" ∧ ExchangeInfo.baseAsset s = "USDT").
Proof.
  unfold api_symbols, getExchangeInfo, Array_sort.
  set (bases := map ExchangeInfo.coinBaseAsset _).
  assert (Hbases : ∀ coin, coin ∈ bases ↔
            ∃ s start, s ∈ symbols ∧ ExchangeInfo.symbol s = start +:+ "USDT" ∧
              ExchangeInfo.status s = "TRADING" ∧ ExchangeInfo.baseAsset s = coin).
  { intros coin. subst bases. rewrite map_map. simpl.
    rewrite list_elem_of_In, in_map_iff. split.
    - intros (s & <- & Hs). apply filter_In in Hs as [Hs Hpair].
      apply andb_true_iff in Hpair as [Hends Hstatus].
      apply endsWith_spec in Hends as [start Hstart]. apply String.eqb_eq in Hstatus.
      exists s, start. by rewrite list_elem_of_In.
    - intros (s & start & Hs & Hstart & Hstatus & <-). exists s. split; [done|].
      apply filter_In. split; [by apply list_elem_of_In|].
      apply andb_true_iff. split; [apply endsWith_spec; by exists start|].
      by apply String.eqb_eq. }
  destruct (Set_values_spec bases) as [Hnd Hin].
  eexists. split; [reflexivity|]. split; [apply Sorted_merge_sort, _|]. split.
  - intros coin. rewrite merge_sort_Permutation, elem_of_app, list_elem_of_singleton.
    rewrite Hin, Hbases. tauto.
  - rewrite merge_sort_Permutation, NoDup_app, <- Hbases, <- Hin. split.
    + intros (_ & Hdisj & _) Husdt. apply (Hdisj "USDT" Husdt).
      by apply list_elem_of_singleton.
    + intros Husdt. split; [done|]. split; [|apply NoDup_singleton].
      by intros x Hx ->%list_elem_of_singleton.
Qed.

Lemma ascii_compare_trans (a b c : ascii) (o : comparison) :
  Ascii.compare a b = o → Ascii.compare b c = o → Ascii.compare a c = o.
Proof.
  unfold Ascii.compare. destruct o.
  - rewrite !N.compare_eq_iff. congruence.
  - rewrite !N.compare_lt_iff. lia.
  - rewrite !N.compare_gt_iff. lia.
Qed.

Lemma string_compare_trans (s1 : string) : ∀ s2 s3 o,
  String.compare s1 s2 = o → String.compare s2 s3 = o → String.compare s1 s3 = o.
Proof.
  induction s1 as [|c1 s1 IH]; intros [|c2 s2] [|c3 s3] o; simpl; try congruence.
  destruct (Ascii.compare c1 c2) eqn:H12, (Ascii.compare c2 c3) eqn:H23.
  all: try (apply Ascii.compare_eq_iff in H12; subst c2).
  all: try (apply Ascii.compare_eq_iff in H23; subst c3).
  all: try rewrite H12; try rewrite H23; try congruence.
  - intros. rewrite (proj2 (N.compare_eq_iff _ _) eq_refl : Ascii.compare c1 c1 = Eq).
    eauto.
  - rewrite (ascii_compare_trans _ _ _ _ H12 H23). congruence.
  - rewrite (ascii_compare_trans _ _ _ _ H12 H23). congruence.
Qed.

Global Instance string_le_trans : Transitive string_le.
Proof.
  intros s1 s2 s3. unfold string_le, String.leb.
  destruct (String.compare s1 s2) eqn:H12; [| |done];
    destruct (String.compare s2 s3) eqn:H23; try done; intros _ _.
  - apply String.compare_eq_iff in H12 as ->. by rewrite H23.
  - apply String.compare_eq_iff in H12 as ->. by rewrite H23.
  - apply String.compare_eq_iff in H23 as <-. by rewrite H12.
  - by rewrite (string_compare_trans _ _ _ _ H12 H23).
Qed.

Global Instance string_le_antisym : AntiSymm (=) string_le.
Proof. intros s1 s2. apply String.leb_antisym. Qed.

(** There is one sorted rearrangement of an array of strings, so
    [Array_sort] is what any correct [sort()] returns. *)
Lemma Array_sort_unique (coins sorted : list string) :
  sorted ≡ₚ coins → Sorted string_le sorted → sorted = Array_sort coins.
Proof.
  intros Hperm Hsorted. apply (Sorted_unique string_le); [done | |].
  - apply Sorted_merge_sort, _.
  - unfold Array_sort. by rewrite merge_sort_Permutation.
Qed.

(** ** Indicators *)

Section Indicators.
Variable klines : list Bar.

Lemma at_index_in_range (i : Z) :
  0 ≤ i < Z.of_nat (length klines) →
  ∃ k, at_index klines i = Some k ∧ klines !! Z.to_nat i = Some k.
Proof.
  intros Hi. unfold at_index. rewrite decide_False by lia.
  destruct (lookup_lt_is_Some_2 klines (Z.to_nat i)) as [k Hk]; [lia|]. by exists k.
Qed.

Lemma windowSum_resolves (i : Z) (count : nat) : ∀ (j : nat) (sum : float),
  Z.of_nat j + Z.of_nat count ≤ i + 1 → i < Z.of_nat (length klines) →
  ∃ total, windowSum klines i j count sum = Resolved total.
Proof.
  induction count as [|count IH]; intros j sum Hj Hi; simpl; [by eexists|].
  destruct (at_index_in_range (i - Z.of_nat j)) as (k & -> & _); [lia|].
  apply IH; lia.
Qed.

Lemma drop_lookup_cons {A : Type} (l : list A) (n : nat) (x : A) :
  l !! n = Some x → drop n l = x :: drop (S n) l.
Proof.
  revert n. induction l as [|y l IH]; intros [|n] Hn; simpl in *; try done.
  - by injection Hn as ->.
  - by apply IH.
Qed.

Lemma movingAverageLoop_resolves (period : nat) : ∀ (rounds n : nat) maData,
  (1 ≤ period)%nat → (period - 1 ≤ n)%nat → (n + rounds)%nat = length klines →
  ∃ maData',
    movingAverageLoop klines period (Z.of_nat n) rounds maData = Resolved maData' ∧
    LinePoint.time <$> maData'
    = (LinePoint.time <$> maData) ++ drop n (time <$> klines).
Proof.
  induction rounds as [|rounds IH]; intros n maData Hperiod Hn Hlen; simpl.
  - exists maData. split; [done|].
    rewrite drop_ge by (rewrite length_fmap; lia). by rewrite app_nil_r.
  - destruct (windowSum_resolves (Z.of_nat n) period 0 0) as [total ->]; [lia..|].
    destruct (at_index_in_range (Z.of_nat n)) as (k & -> & Hk); [lia|].
    rewrite Nat2Z.id in Hk.
    replace (Z.of_nat n + 1) with (Z.of_nat (S n)) by lia.
    destruct (IH (S n) (maData ++ [LinePoint.mk (time k)
                                     (total / float_of_nat period)%float]))
      as (maData' & -> & Htimes); [lia..|].
    exists maData'. split; [done|]. rewrite Htimes, fmap_app. simpl.
    rewrite <- app_assoc. simpl. f_equal. symmetry. apply drop_lookup_cons.
    by rewrite list_lookup_fmap, Hk.
Qed.

Lemma addMovingAverage_resolves (period : nat) :
  (1 ≤ period)%nat →
  ∃ maData,
    addMovingAverage true klines period = Resolved (Some maData) ∧
    LinePoint.time <$> maData = drop (period - 1) (time <$> klines).
Proof.
  intros Hperiod. unfold addMovingAverage. cbn [negb].
  replace (Z.of_nat period - 1) with (Z.of_nat (period - 1)) by lia.
  destruct (decide (period - 1 ≤ length klines)%nat) as [Hle|Hgt].
  - destruct (movingAverageLoop_resolves period
                (Z.to_nat (Z.of_nat (length klines) - Z.of_nat (period - 1)))
                (period - 1) []) as (maData & -> & Htimes); [lia..|].
    by exists maData.
  - replace (Z.to_nat (Z.of_nat (length klines) - Z.of_nat (period - 1))) with 0%nat
      by lia.
    exists []. split; [done|]. rewrite drop_ge; [done|]. rewrite length_fmap. lia.
Qed.

(** X17. For a period of at least 1 and an initialised chart,
    [addMovingAverage] never throws: it produces one point for each bar from
    the ([period]-th) one on, carrying that bar's time, hence
    [klines.length - period + 1] points, and none when there are fewer bars
    than the period.  With period 0 it throws a [TypeError], and without a
    chart it returns [null] without computing anything. *)
Theorem addMovingAverage_points (period : nat) :
  ((1 ≤ period)%nat →
   ∃ maData,
     addMovingAverage true klines period = Resolved (Some maData) ∧
     LinePoint.time <$> maData = drop (period - 1) (time <$> klines) ∧
     length maData = (length klines - (period - 1))%nat) ∧
  addMovingAverage true klines 0 = Rejected (TypeError_undefined "time") ∧
  addMovingAverage false klines period = Resolved None.
Proof.
  split; [|split; [|done]].
  - intros Hperiod.
    destruct (addMovingAverage_resolves period Hperiod) as (maData & Hma & Htimes).
    exists maData. split; [done|]. split; [done|].
    by rewrite <- (length_fmap LinePoint.time), Htimes, length_drop, length_fmap.
  - unfold addMovingAverage. cbn [negb].
    replace (Z.to_nat (Z.of_nat (length klines) - (Z.of_nat 0 - 1)))
      with (S (length klines)) by lia.
    reflexivity.
Qed.

Lemma seedSum_resolves (count : nat) : ∀ (i : nat) (sum : float),
  (i + count ≤ length klines)%nat →
  ∃ total, seedSum klines i count sum = Resolved total.
Proof.
  induction count as [|count IH]; intros i sum Hi; simpl; [by eexists|].
  destruct (lookup_lt_is_Some_2 klines i) as [k ->]; [lia|]. apply IH. lia.
Qed.

Lemma seedSum_rejects (count : nat) : ∀ (i : nat) (sum : float),
  (i ≤ length klines < i + count)%nat →
  seedSum klines i count sum = Rejected (TypeError_undefined "close").
Proof.
  induction count as [|count IH]; intros i sum Hi; simpl; [lia|].
  destruct (klines !! i) as [k|] eqn:Hk; [|done].
  apply lookup_lt_Some in Hk. apply IH. lia.
Qed.

Lemma exponentialLoop_resolves (multiplier : float) :
  ∀ (rounds i : nat) (ema : float) emaData,
  (i + rounds)%nat = length klines →
  ∃ emaData',
    exponentialLoop klines multiplier i rounds ema emaData = Resolved emaData' ∧
    LinePoint.time <$> emaData'
    = (LinePoint.time <$> emaData) ++ drop i (time <$> klines).
Proof.
  induction rounds as [|rounds IH]; intros i ema emaData Hlen; simpl.
  - exists emaData. split; [done|].
    rewrite drop_ge by (rewrite length_fmap; lia). by rewrite app_nil_r.
  - destruct (lookup_lt_is_Some_2 klines i) as [k Hk]; [lia|]. rewrite Hk.
    destruct (IH (S i) ((close k - ema) * multiplier + ema)%float
                (emaData ++ [LinePoint.mk (time k)
                               ((close k - ema) * multiplier + ema)%float]))
      as (emaData' & -> & Htimes); [lia|].
    exists emaData'. split; [done|]. rewrite Htimes, fmap_app. simpl.
    rewrite <- app_assoc. simpl. f_equal. symmetry. apply drop_lookup_cons.
    by rewrite list_lookup_fmap, Hk.
Qed.

Lemma addExponentialMovingAverage_resolves (period : nat) :
  (1 ≤ period ≤ length klines)%nat →
  ∃ emaData,
    addExponentialMovingAverage true klines period = Resolved (Some emaData) ∧
    LinePoint.time <$> emaData = drop (period - 1) (time <$> klines).
Proof.
  intros Hperiod. unfold addExponentialMovingAverage. cbn [negb].
  destruct (seedSum_resolves period 0 0) as [total ->]; [lia|].
  destruct (at_index_in_range (Z.of_nat period - 1)) as (k & -> & Hk); [lia|].
  replace (Z.to_nat (Z.of_nat period - 1)) with (period - 1)%nat in Hk by lia.
  destruct (exponentialLoop_resolves (2 / (float_of_nat period + 1))%float
              (length klines - period) period (total / float_of_nat period)%float
              [LinePoint.mk (time k) (total / float_of_nat period)%float])
    as (emaData & -> & Htimes); [lia|].
  exists emaData. split; [done|]. rewrite Htimes. simpl.
  assert (Hdrop : drop (period - 1) (time <$> klines)
                  = time k :: drop (S (period - 1)) (time <$> klines))
    by (apply drop_lookup_cons; by rewrite list_lookup_fmap, Hk).
  rewrite Hdrop. do 2 f_equal. lia.
Qed.

(** X18. With an initialised chart and a period of at least 1,
    [addExponentialMovingAverage] succeeds exactly when there are at least
    [period] bars: it then produces one point for each bar from the
    ([period]-th) one on, carrying that bar's time, hence
    [klines.length - period + 1] points; with fewer bars it throws a
    [TypeError] while summing the first [period] closes. *)
Theorem addExponentialMovingAverage_points (period : nat) :
  ((1 ≤ period ≤ length klines)%nat →
   ∃ emaData,
     addExponentialMovingAverage true klines period = Resolved (Some emaData) ∧
     LinePoint.time <$> emaData = drop (period - 1) (time <$> klines) ∧
     length emaData = (length klines - (period - 1))%nat) ∧
  ((length klines < period)%nat →
   addExponentialMovingAverage true klines period
   = Rejected (TypeError_undefined "close")).
Proof.
  split.
  - intros Hperiod.
    destruct (addExponentialMovingAverage_resolves period Hperiod)
      as (emaData & Hema & Htimes).
    exists emaData. split; [done|]. split; [done|].
    by rewrite <- (length_fmap LinePoint.time), Htimes, length_drop, length_fmap.
  - intros Hshort. unfold addExponentialMovingAverage. cbn [negb].
    rewrite seedSum_rejects; [done | lia].
Qed.

(** X19. [addDefaultIndicators] never throws.  With fewer than 50 bars it
    adds nothing; with 50 bars or more and an initialised chart it adds the
    20-period moving average, of [klines.length - 19] points, and the
    50-period exponential one, of [klines.length - 49] points. *)
Theorem addDefaultIndicators_safe (indicators : list (option (list LinePoint.t))) :
  ((length klines < 50)%nat →
   ∀ chart, addDefaultIndicators chart klines indicators = Resolved indicators) ∧
  ((50 ≤ length klines)%nat →
   addDefaultIndicators false klines indicators = Resolved (indicators ++ [None; None]) ∧
   ∃ ma ema,
     addDefaultIndicators true klines indicators
     = Resolved (indicators ++ [Some ma; Some ema]) ∧
     length ma = (length klines - 19)%nat ∧
     length ema = (length klines - 49)%nat).
Proof.
  split.
  - intros Hshort chart. unfold addDefaultIndicators.
    by rewrite bool_decide_eq_true_2.
  - intros Hlong. unfold addDefaultIndicators.
    rewrite bool_decide_eq_false_2 by lia. split; [done|].
    destruct (addMovingAverage_resolves 20) as (ma & -> & Hma); [lia|].
    destruct (addExponentialMovingAverage_resolves 50) as (ema & -> & Hema); [lia|].
    exists ma, ema. split; [done|]. split.
    + by rewrite <- (length_fmap LinePoint.time), Hma, length_drop, length_fmap.
    + by rewrite <- (length_fmap LinePoint.time), Hema, length_drop, length_fmap.
Qed.

End Indicators.

Lemma addMovingAverage_points_witness :
  ∃ maData,
    addMovingAverage true [bar 100 1 1 1 1 1; bar 200 2 2 2 3 1; bar 300 2 2 2 5 1] 2
    = Resolved (Some maData) ∧
    LinePoint.time <$> maData = [200; 300] ∧
    length maData = 2%nat.
Proof.
  apply (proj1 (addMovingAverage_points
                  [bar 100 1 1 1 1 1; bar 200 2 2 2 3 1; bar 300 2 2 2 5 1] 2)).
  lia.
Defined.

Lemma addExponentialMovingAverage_points_witness :
  (∃ emaData,
     addExponentialMovingAverage true
       [bar 100 1 1 1 1 1; bar 200 2 2 2 3 1; bar 300 2 2 2 5 1] 2
     = Resolved (Some emaData) ∧
     LinePoint.time <$> emaData = [200; 300] ∧
     length emaData = 2%nat) ∧
  addExponentialMovingAverage true [bar 100 1 1 1 1 1] 2
  = Rejected (TypeError_undefined "close").
Proof.
  split.
  - apply (proj1 (addExponentialMovingAverage_points
                    [bar 100 1 1 1 1 1; bar 200 2 2 2 3 1; bar 300 2 2 2 5 1] 2)).
    simpl. lia.
  - apply (proj2 (addExponentialMovingAverage_points [bar 100 1 1 1 1 1] 2)).
    simpl. lia.
Defined.

Lemma addDefaultIndicators_safe_witness :
  addDefaultIndicators true [bar 100 1 1 1 1 1; bar 200 2 2 2 3 1] [] = Resolved [].
Proof.
  apply (proj1 (addDefaultIndicators_safe [bar 100 1 1 1 1 1; bar 200 2 2 2 3 1] [])).
  simpl. lia.
Defined.

(** ** The browser side *)

Lemma answer_with_world (env : Env) coinA coinB interval (klines : list Bar)
    (w : World) :
  (answer_with env coinA coinB interval klines w).2 = w.
Proof.
  unfold answer_with, try_catch, bind, ret, statistics.
  by destruct (at_index klines _), (at_index klines 0).
Qed.

Lemma api_klines_events_valid (env : Env) (query : KlinesQuery.t) (w : World) :
  truthy (KlinesQuery.coinA query) = true →
  truthy (KlinesQuery.coinB query) = true →
  KlinesQuery.coinA query ≠ KlinesQuery.coinB query →
  ∃ rest,
    events (api_klines env query w).2
    = events w
        ++ EvCacheGet (CacheManager.generateKey
                         (default "" (KlinesQuery.coinA query))
                         (default "" (KlinesQuery.coinB query))
                         (default "1h" (KlinesQuery.interval query)))
        :: rest.
Proof.
  intros HA HB Hne.
  destruct (CacheManager.get cloneKlines (cache w)
              (default "" (KlinesQuery.coinA query))
              (default "" (KlinesQuery.coinB query))
              (default "1h" (KlinesQuery.interval query)) (clock w))
    as [[klines|] c1] eqn:Hget.
  - rewrite (api_klines_on_hit env query w HA HB Hne klines c1 Hget).
    rewrite answer_with_world. by exists [].
  - rewrite (api_klines_on_miss env query w HA HB Hne c1 Hget).
    destruct (getSyntheticPair env _ _ _ _) as [delay [klines|message]].
    + rewrite answer_with_world. cbn [events]. by eexists.
    + cbn [snd events]. by eexists.
Qed.

Lemma api_refresh_events_valid (env : Env) (body : RefreshBody.t) (w : World) :
  truthy (RefreshBody.coinA body) = true →
  truthy (RefreshBody.coinB body) = true →
  ∃ rest,
    events (api_refresh env body w).2
    = events w
        ++ EvCacheDelete (CacheManager.generateKey
                            (default "" (RefreshBody.coinA body))
                            (default "" (RefreshBody.coinB body))
                            (default "1h" (RefreshBody.interval body)))
        :: rest.
Proof.
  intros HA HB. unfold api_refresh. rewrite HA, HB. cbn [negb orb]. unfold_handler.
  destruct (CacheManager.delete (cache w) _ _ _) as [deleted c1].
  cbn [cache clock events].
  destruct (getSyntheticPair env _ _ _ _) as [delay [klines|message]].
  - cbn [cache clock events].
    destruct (CacheManager.set cloneKlines c1 _ _ _ _ _) as [success c2].
    cbn [cache clock events snd]. rewrite <- !app_assoc. by eexists.
  - cbn [snd events]. rewrite <- !app_assoc. by eexists.
Qed.

Lemma fetchKlines_world (env : Env) coinA coinB interval (w : World) :
  (fetchKlines env coinA coinB interval w).2
  = (api_klines env
       (KlinesQuery.mk (Some coinA) (Some coinB) (Some interval) (Some "500")) w).2.
Proof. unfold fetchKlines. by destruct (api_klines env _ w) as [[] w']. Qed.

Lemma refreshCache_world (env : Env) coinA coinB interval (w : World) :
  (refreshCache env coinA coinB interval w).2
  = (api_refresh env (RefreshBody.mk (Some coinA) (Some coinB) (Some interval)) w).2.
Proof. unfold refreshCache. by destruct (api_refresh env _ w) as [[] w']. Qed.

Lemma truthy_nonempty (s : string) : s ≠ "" → truthy (Some s) = true.
Proof. by destruct s. Qed.

(** X20. [loadChartData] sends nothing when a coin is not selected or when
    both selects hold the same coin: it alerts and the server is left
    untouched, also for a forced refresh.  Otherwise the first thing that
    happens on the server is the cache operation of the request, the deletion
    of the key for a forced refresh and the lookup of the key for a plain
    load: the request has passed the server's validation. *)
Theorem loadChartData_validates (env : Env) (latency : Z)
    (coinA coinB interval : string) (forceRefresh : bool) (w : World) :
  (coinA = "" ∨ coinB = "" ∨ coinA = coinB →
   ∃ message,
     loadChartData env latency coinA coinB interval forceRefresh w
     = (ShowError message, w)) ∧
  (coinA ≠ "" → coinB ≠ "" → coinA ≠ coinB →
   ∃ rest,
     events (loadChartData env latency coinA coinB interval forceRefresh w).2
     = events w
         ++ (if forceRefresh
             then EvCacheDelete (CacheManager.generateKey coinA coinB interval)
             else EvCacheGet (CacheManager.generateKey coinA coinB interval))
         :: rest).
Proof.
  unfold loadChartData. split.
  - intros Hbad.
    destruct (truthy (Some coinA)) eqn:HA; [|by eexists].
    destruct (truthy (Some coinB)) eqn:HB; [|by eexists].
    destruct Hbad as [-> | [-> | ->]]; [done..|].
    cbn [negb orb]. rewrite String.eqb_refl. by eexists.
  - intros HA%truthy_nonempty HB%truthy_nonempty Hne.
    rewrite HA, HB. cbn [negb orb].
    rewrite (proj2 (String.eqb_neq coinA coinB) Hne).
    assert (Hquery : ∀ w1, ∃ rest,
              events (fetchKlines env coinA coinB interval w1).2
              = events w1
                  ++ EvCacheGet (CacheManager.generateKey coinA coinB interval) :: rest).
    { intros w1. rewrite fetchKlines_world.
      apply (api_klines_events_valid env
               (KlinesQuery.mk (Some coinA) (Some coinB) (Some interval) (Some "500")));
        [done | done | by intros [= ?]]. }
    destruct forceRefresh.
    + destruct (api_refresh_events_valid env
                  (RefreshBody.mk (Some coinA) (Some coinB) (Some interval)) w HA HB)
        as [rest Hrefresh].
      rewrite <- refreshCache_world in Hrefresh. cbn [RefreshBody.coinA
        RefreshBody.coinB RefreshBody.interval default] in Hrefresh.
      unfold bind, elapse.
      destruct (refreshCache env coinA coinB interval w) as [[response|message] w1].
      * cbn [snd] in Hrefresh.
        destruct (Hquery (mkWorld (cache w1) (clock w1 + latency) (events w1)))
          as [rest' Hfetch].
        destruct (fetchKlines env coinA coinB interval _) as [[response'|message'] w2];
          cbn [snd events] in *; rewrite Hfetch, Hrefresh, <- app_assoc; by eexists.
      * cbn [snd] in *. by eexists.
    + unfold bind, ret. destruct (Hquery w) as [rest Hfetch].
      destruct (fetchKlines env coinA coinB interval w) as [[response|message] w1];
        cbn [snd] in *; by eexists.
Qed.

Lemma loadChartData_validates_witness :
  (∃ message,
     loadChartData env_overlap 40 "BTC" "BTC" "1h" true world0
     = (ShowError message, world0)) ∧
  ∃ rest,
    events (loadChartData env_overlap 40 "BTC" "ETH" "1h" true world0).2
    = events world0 ++ EvCacheDelete "BTC_ETH_1h" :: rest.
Proof.
  split.
  - apply (proj1 (loadChartData_validates env_overlap 40 "BTC" "BTC" "1h" true world0)).
    right. right. reflexivity.
  - apply (proj2 (loadChartData_validates env_overlap 40 "BTC" "ETH" "1h" true world0));
      discriminate.
Defined.

(** ** The limit and the cache *)

(** X21. The number of bars asked for is not part of the cache key: on a hit
    two requests that differ only in their [limit] get the same answer and
    leave the same state, so a series cached for one limit is served
    for any other. *)
Theorem api_klines_limit_ignored_on_hit (env : Env) (query query' : KlinesQuery.t)
    (w : World) :
  truthy (KlinesQuery.coinA query) = true →
  truthy (KlinesQuery.coinB query) = true →
  KlinesQuery.coinA query ≠ KlinesQuery.coinB query →
  KlinesQuery.coinA query' = KlinesQuery.coinA query →
  KlinesQuery.coinB query' = KlinesQuery.coinB query →
  KlinesQuery.interval query' = KlinesQuery.interval query →
  is_Some (CacheManager.get cloneKlines (cache w)
             (default "" (KlinesQuery.coinA query))
             (default "" (KlinesQuery.coinB query))
             (default "1h" (KlinesQuery.interval query)) (clock w)).1 →
  api_klines env query' w = api_klines env query w.
Proof.
  intros HA HB Hne HqA HqB Hqi [klines Hhit].
  destruct (CacheManager.get cloneKlines (cache w) _ _ _ _) as [cached c1] eqn:Hget.
  cbn [fst] in Hhit. subst cached.
  rewrite (api_klines_on_hit env query w HA HB Hne klines c1 Hget).
  assert (HA' : truthy (KlinesQuery.coinA query') = true) by by rewrite HqA.
  assert (HB' : truthy (KlinesQuery.coinB query') = true) by by rewrite HqB.
  assert (Hne' : KlinesQuery.coinA query' ≠ KlinesQuery.coinB query')
    by by rewrite HqA, HqB.
  erewrite (api_klines_on_hit env query' w HA' HB' Hne' klines c1);
    [|rewrite HqA, HqB, Hqi; exact Hget].
  by rewrite HqA, HqB, Hqi.
Qed.

Lemma api_klines_limit_ignored_on_hit_witness :
  let world1 := (api_klines env_overlap query_BTC_ETH world0).2 in
  api_klines env_overlap (KlinesQuery.mk (Some "BTC") (Some "ETH") None (Some "1000"))
    world1
  = api_klines env_overlap query_BTC_ETH world1.
Proof.
  apply (api_klines_limit_ignored_on_hit env_overlap query_BTC_ETH
           (KlinesQuery.mk (Some "BTC") (Some "ETH") None (Some "1000"))
           (api_klines env_overlap query_BTC_ETH world0).2);
    try reflexivity; [discriminate|].
  vm_compute. eexists. reflexivity.
Defined.

(** ** Pressing Refresh *)



(** ** Upper and lower case *)



